(** * RoboMeshCat: the [Scene] facade of [robomeshcat/scene.py]

    A shallow embedding of [Scene] and [AnimationContext].  A Python method
    becomes a computation in a state-and-exception monad over a [World]:
    the scene's attributes, the store of the [Object]s and [Robot]s the scene
    refers to (they are shared, mutable Python objects), and the chronological
    log of every call the scene makes on a collaborator (the meshcat
    visualizer, an animation frame, [print], [Robot.fk]). *)

From Stdlib Require Import ZArith.
From stdpp Require Import list strings.

Open Scope string_scope.
Open Scope list_scope.

(** ** Exceptions and results *)

Inductive exn :=
| KeyError (key : string)
| TypeError
| ValueError
| IndexError
| AttributeError
| UserError (msg : string).

Inductive Res (A : Type) :=
| Ok (a : A)
| Raise (e : exn).
Arguments Ok {A} a.
Arguments Raise {A} e.

(** ** Python's [dict] with [str] keys

    Iteration follows insertion order, and assigning to a key that is
    present keeps its place: the order decides the order of the writes of
    [Scene.render]. *)

Module Dict.
Section dict.
Context {V : Type}.

Fixpoint get (k : string) (d : list (string * V)) : option V :=
  match d with
  | [] => None
  | (k', v) :: d' => if decide (k = k') then Some v else get k d'
  end.

(** [k in d] *)
Definition mem (k : string) (d : list (string * V)) : bool :=
  match get k d with Some _ => true | None => false end.

(** [d[k] = v] *)
Fixpoint set (k : string) (v : V) (d : list (string * V)) : list (string * V) :=
  match d with
  | [] => [(k, v)]
  | (k', v') :: d' =>
      if decide (k = k') then (k', v) :: d' else (k', v') :: set k v d'
  end.

(** [d.pop(k)]: [None] stands for the [KeyError] of a missing key. *)
Fixpoint pop (k : string) (d : list (string * V)) : option (V * list (string * V)) :=
  match d with
  | [] => None
  | (k', v) :: d' =>
      if decide (k = k') then Some (v, d')
      else match pop k d' with
           | Some (x, d'') => Some (x, (k', v) :: d'')
           | None => None
           end
  end.

Definition keys (d : list (string * V)) : list string := map fst d.
Definition values (d : list (string * V)) : list V := map snd d.
End dict.
End Dict.

(** ** The collaborators

    [object.py] and [robot.py] and the meshcat library are outside this
    file's source: the scalar type of the arrays, the geometry and material
    payloads and a robot's joint configuration are parameters. *)

Class Collaborators := {
  scalar : Type;
  scalar_zero : scalar;
  scalar_one : scalar;
  Geometry : Type;
  Material : Type;
  Config : Type;
}.

Definition ObjRef := nat.
Definition RobotRef := nat.

Section Arrays.
Context `{Collaborators}.

(** A two-dimensional numpy array, as the list of its rows. *)
Definition matrix := list (list scalar).

(** [np.eye(n)] *)
Definition eye (n : nat) : matrix :=
  map (λ i, map (λ j, if decide (i = j) then scalar_one else scalar_zero) (seq 0 n))
      (seq 0 n).

Definition ncols (m : matrix) : nat :=
  match m with [] => 0 | row :: _ => length row end.

Definition rect (m : matrix) : bool :=
  forallb (λ row, Nat.eqb (length row) (ncols m)) m.

(** numpy broadcasting of a one-dimensional value to length [n]. *)
Definition broadcast {A} (n : nat) (l : list A) : option (list A) :=
  if decide (length l = n) then Some l
  else match l with [x] => Some (replicate n x) | _ => None end.

(** [m[:3, 3]] *)
Definition get_col3 (m : matrix) : Res (list scalar) :=
  match mapM (λ row : list scalar, row !! 3) (take 3 m) with
  | Some v => Ok v
  | None => Raise IndexError
  end.

(** [m[:3, 3] = p] for a one-dimensional [p] *)
Definition set_col3 (p : list scalar) (m : matrix) : Res matrix :=
  if forallb (λ row : list scalar, Nat.ltb 3 (length row)) (take 3 m) then
    match broadcast (length (take 3 m)) p with
    | Some p' =>
        Ok (zip_with (λ (row : list scalar) x, <[3:=x]> row) (take 3 m) p' ++ drop 3 m)
    | None => Raise ValueError
    end
  else Raise IndexError.

(** [m[:3, :3]] *)
Definition get_block33 (m : matrix) : Res matrix :=
  Ok (map (take 3) (take 3 m)).

(** [m[:3, :3] = r] for a two-dimensional [r] *)
Definition set_block33 (r : matrix) (m : matrix) : Res matrix :=
  if rect r then
    match mapM (broadcast (Nat.min 3 (ncols m))) r with
    | Some rows =>
        match broadcast (length (take 3 m)) rows with
        | Some r' =>
            Ok (zip_with (λ (row new : list scalar), new ++ drop 3 row) (take 3 m) r'
                ++ drop 3 m)
        | None => Raise ValueError
        end
    | None => Raise ValueError
    end
  else Raise ValueError.

Definition is_shape (rows cols : nat) (m : matrix) : Prop :=
  length m = rows ∧ Forall (λ row, length row = cols) m.
End Arrays.

(** ** Objects, robots and the store that holds them *)

Section World.
Context `{Collaborators}.

(** Modelled from the spec: [Object] of [object.py], with the attributes the
    scene reads: "exposes [name], [geometry], [material], [pose]". *)
Record Object := {
  o_name : string;
  geometry : Geometry;
  material : Material;
  pose : matrix;
}.

(** Modelled from the spec: [Robot] of [robot.py], "exposes [name], a
    mapping [objects] (child Objects to register/unregister), and [fk()]".
    [r_objects] is that mapping; [r_config] stands for the joint
    configuration [fk()] works from. *)
Record Robot := {
  r_name : string;
  r_objects : list (string * ObjRef);
  r_config : Config;
}.

Record Store := {
  objs : ObjRef → Object;
  robs : RobotRef → Robot;
}.

(** ** Calls on the collaborators *)

(** Where a write goes: the live tree [self.vis], or the frame handle
    [f] that [Animation.at_frame(vis, n)] yields. *)
Inductive target :=
| Live
| Frame (n : nat).

Inductive value :=
| VNum (x : scalar)
| VInts (l : list Z).

Inductive write :=
| WTransform (m : matrix)
| WProperty (key jstype : string) (v : value).

(** Modelled from the spec: meshcat's [Animation], "an ordered sequence of
    frames, each a set of path to property writes".  It holds the frame rate
    it was created with and the frame-scoped writes recorded so far, each
    tagged with its frame index and its path, oldest first. *)
Record Animation := {
  default_framerate : Z;
  writes : list (nat * string * write);
}.

Inductive call :=
| EPrint (msg : string)
| EOpen
| EWait
| ESetObject (path : string) (g : Geometry) (m : Material)
| EDelete (path : string)
| ESetTransform (t : target) (path : string) (m : matrix)
| ESetProperty (t : target) (path key : string) (jstype : option string) (v : value)
| ESetAnimation (path : string) (a : option Animation)
| EFk (r : RobotRef).

(** ** The scene *)

Record Scene := {
  objects : list (string * ObjRef);
  robots : list (string * RobotRef);
  camera_pose : matrix;
  camera_zoom : scalar;
  _animation : option Animation;
  _animation_frame_counter : option nat;
}.

Record World := {
  scene : Scene;
  store : Store;
  calls : list call;
}.

(** ** The monad of the methods: state and exceptions.  An exception keeps
    the state reached when it was raised. *)

Definition M (A : Type) : Type := World → Res A * World.

Definition ret {A} (a : A) : M A := λ w, (Ok a, w).

Definition bind {A B} (c : M A) (k : A → M B) : M B := λ w,
  match c w with
  | (Ok a, w') => k a w'
  | (Raise e, w') => (Raise e, w')
  end.

Definition raise {A} (e : exn) : M A := λ w, (Raise e, w).

Definition get_scene : M Scene := λ w, (Ok (scene w), w).
Definition get_store : M Store := λ w, (Ok (store w), w).

Definition modify_scene (f : Scene → Scene) : M unit := λ w,
  (Ok tt, {| scene := f (scene w); store := store w; calls := calls w |}).

Definition modify_store (f : Store → Store) : M unit := λ w,
  (Ok tt, {| scene := scene w; store := f (store w); calls := calls w |}).

Definition emit (c : call) : M unit := λ w,
  (Ok tt, {| scene := scene w; store := store w; calls := calls w ++ [c] |}).
End World.

Arguments ret {_ _} a w /.
Arguments bind {_ _ _} c k w /.
Arguments raise {_ _} e w /.
Arguments get_scene {_} w /.
Arguments get_store {_} w /.
Arguments modify_scene {_} f w /.
Arguments modify_store {_} f w /.
Arguments emit {_} c w /.

Declare Scope py_scope.
Delimit Scope py_scope with py.
Notation "x <- c ;; k" := (bind c (λ x, k))
  (at level 100, c at next level, right associativity) : py_scope.
Notation "c ;;; k" := (bind c (λ _, k))
  (at level 100, right associativity) : py_scope.

Local Open Scope py_scope.

(** Modelled from the spec: [Robot.fk] of [robot.py], which "mutates child
    poses from current configuration".  It is a parameter, and may rewrite
    anything in the store. *)
Class Kinematics `{Collaborators} := {
  fk : RobotRef → Store → Store;
}.

Section Scene.
Context `{Kinematics}.

Definition set_objects (d : list (string * ObjRef)) (s : Scene) : Scene :=
  {| objects := d; robots := robots s; camera_pose := camera_pose s;
     camera_zoom := camera_zoom s; _animation := _animation s;
     _animation_frame_counter := _animation_frame_counter s |}.

Definition set_robots (d : list (string * RobotRef)) (s : Scene) : Scene :=
  {| objects := objects s; robots := d; camera_pose := camera_pose s;
     camera_zoom := camera_zoom s; _animation := _animation s;
     _animation_frame_counter := _animation_frame_counter s |}.

Definition set_camera_pose (m : matrix) (s : Scene) : Scene :=
  {| objects := objects s; robots := robots s; camera_pose := m;
     camera_zoom := camera_zoom s; _animation := _animation s;
     _animation_frame_counter := _animation_frame_counter s |}.

Definition set_camera_zoom (z : scalar) (s : Scene) : Scene :=
  {| objects := objects s; robots := robots s; camera_pose := camera_pose s;
     camera_zoom := z; _animation := _animation s;
     _animation_frame_counter := _animation_frame_counter s |}.

Definition set_animation (a : option Animation) (s : Scene) : Scene :=
  {| objects := objects s; robots := robots s; camera_pose := camera_pose s;
     camera_zoom := camera_zoom s; _animation := a;
     _animation_frame_counter := _animation_frame_counter s |}.

Definition set_frame_counter (c : option nat) (s : Scene) : Scene :=
  {| objects := objects s; robots := robots s; camera_pose := camera_pose s;
     camera_zoom := camera_zoom s; _animation := _animation s;
     _animation_frame_counter := c |}.

Fixpoint for_each {A} (l : list A) (body : A → M unit) : M unit :=
  match l with
  | [] => ret tt
  | x :: l' => body x ;;; for_each l' body
  end.

(** *** The two kinds of tree handle

    A write on the live tree is a call on the visualizer.  A write on a
    frame handle is recorded in the animation the handle was made from,
    which is the one [self._animation] refers to during [render]. *)

Definition record_write (n : nat) (path : string) (x : write) (s : Scene) : Scene :=
  match _animation s with
  | Some a =>
      set_animation
        (Some {| default_framerate := default_framerate a;
                 writes := writes a ++ [(n, path, x)] |}) s
  | None => s
  end.

(** [vis_tree[path].set_transform(m)] *)
Definition tree_set_transform (t : target) (path : string) (m : matrix) : M unit :=
  match t with
  | Live => emit (ESetTransform Live path m)
  | Frame n =>
      emit (ESetTransform (Frame n) path m) ;;;
      modify_scene (record_write n path (WTransform m))
  end.

(** [vis_tree[path].set_property(key, value)] with [jstype = None] and
    [vis_tree[path].set_property(key, jstype, value)] otherwise: the live
    tree takes two arguments and a frame handle three. *)
Definition tree_set_property (t : target) (path key : string)
    (jstype : option string) (v : value) : M unit :=
  match t, jstype with
  | Live, None => emit (ESetProperty Live path key None v)
  | Frame n, Some ty =>
      emit (ESetProperty (Frame n) path key (Some ty) v) ;;;
      modify_scene (record_write n path (WProperty key ty v))
  | _, _ => raise TypeError
  end.

(** *** [Scene.__init__] *)

Definition Scene_init (open wait_for_open : bool) (st : Store) : World :=
  {| scene := {| objects := []; robots := [];
                 camera_pose := eye 4; camera_zoom := scalar_one;
                 _animation := None; _animation_frame_counter := None |};
     store := st;
     calls := (if open then [EOpen] else [])
              ++ (if wait_for_open then [EWait] else [])
              ++ [ESetProperty Live "/Background" "top_color" None (VInts [1; 1; 1]);
                  ESetProperty Live "/Background" "bottom_color" None (VInts [1; 1; 1])]%Z |}.

(** *** [Scene.add_object], [Scene.remove_object] *)

Definition add_object (obj : ObjRef) (verbose : bool) : M unit :=
  s <- get_scene ;;
  st <- get_store ;;
  let o := objs st obj in
  (if verbose && Dict.mem (o_name o) (objects s)
   then emit (EPrint "Object with the same name is already inside the scene, it will be replaced. ")
   else ret tt) ;;;
  modify_scene (λ s, set_objects (Dict.set (o_name o) obj (objects s)) s) ;;;
  emit (ESetObject (o_name o) (geometry o) (material o)).

Definition remove_object (obj : ObjRef) (verbose : bool) : M unit :=
  s <- get_scene ;;
  if verbose && bool_decide (_animation s ≠ None)
  then emit (EPrint "Removing object while animating is not allowed.")
  else
    st <- get_store ;;
    let o := objs st obj in
    match Dict.pop (o_name o) (objects s) with
    | None => raise (KeyError (o_name o))
    | Some (_, d) =>
        modify_scene (set_objects d) ;;;
        emit (EDelete (o_name o))
    end.

(** *** [Scene.add_robot], [Scene.remove_robot] *)

Definition add_robot (robot : RobotRef) (verbose : bool) : M unit :=
  s <- get_scene ;;
  st <- get_store ;;
  let r := robs st robot in
  (if verbose && Dict.mem (r_name r) (robots s)
   then emit (EPrint "Robot with the same name is already inside the scene, it will be replaced. ")
   else ret tt) ;;;
  modify_scene (λ s, set_robots (Dict.set (r_name r) robot (robots s)) s) ;;;
  for_each (Dict.values (r_objects r)) (λ obj, add_object obj verbose).

Definition remove_robot (robot : RobotRef) (verbose : bool) : M unit :=
  s <- get_scene ;;
  if verbose && bool_decide (_animation s ≠ None)
  then emit (EPrint "Removing robots while animating is not allowed.")
  else
    st <- get_store ;;
    let r := robs st robot in
    match Dict.pop (r_name r) (robots s) with
    | None => raise (KeyError (r_name r))
    | Some (_, d) =>
        modify_scene (set_robots d) ;;;
        for_each (Dict.values (r_objects r)) (λ obj, remove_object obj verbose)
    end.

(** *** [Scene.render] and its two helpers *)

Definition _update_camera (vis_tree : target) : M unit :=
  s <- get_scene ;;
  tree_set_transform vis_tree "/Cameras/default" (camera_pose s) ;;;
  s <- get_scene ;;
  if bool_decide (_animation s ≠ None)
  then tree_set_property vis_tree "/Cameras/default/rotated/<object>"
         "zoom" (Some "number") (VNum (camera_zoom s))
  else tree_set_property vis_tree "/Cameras/default/rotated/<object>"
         "zoom" None (VNum (camera_zoom s)).

Definition _update_visualization_tree (vis_tree : target) : M unit :=
  s <- get_scene ;;
  for_each (Dict.values (robots s))
    (λ robot, emit (EFk robot) ;;; modify_store (fk robot)) ;;;
  s <- get_scene ;;
  for_each (objects s)
    (λ '(k, obj),
       st <- get_store ;;
       tree_set_transform vis_tree (o_name (objs st obj)) (pose (objs st obj))).

(** [next(self._animation_frame_counter)]: [next(None)] is a [TypeError]. *)
Definition next_frame : M nat :=
  s <- get_scene ;;
  match _animation_frame_counter s with
  | Some n => modify_scene (set_frame_counter (Some (S n))) ;;; ret n
  | None => raise TypeError
  end.

Definition render : M unit :=
  s <- get_scene ;;
  if bool_decide (_animation s ≠ None)
  then
    n <- next_frame ;;
    _update_camera (Frame n) ;;;
    _update_visualization_tree (Frame n)
  else
    _update_camera Live ;;;
    _update_visualization_tree Live.

(** *** The camera properties *)

Definition camera_pos (s : Scene) : Res (list scalar) := get_col3 (camera_pose s).

Definition camera_pos_setter (p : list scalar) : M unit :=
  s <- get_scene ;;
  match set_col3 p (camera_pose s) with
  | Ok m => modify_scene (set_camera_pose m)
  | Raise e => raise e
  end.

Definition camera_rot (s : Scene) : Res matrix := get_block33 (camera_pose s).

Definition camera_rot_setter (r : matrix) : M unit :=
  s <- get_scene ;;
  match set_block33 r (camera_pose s) with
  | Ok m => modify_scene (set_camera_pose m)
  | Raise e => raise e
  end.

(** ** [AnimationContext] *)

Record AnimationContext := {
  fps : Z;
  name : string;
}.

(** [Scene.animation(fps)]; the name defaults to ['a']. *)
Definition animation (fps : Z) : AnimationContext :=
  {| fps := fps; name := "a" |}.

Definition __enter__ (self : AnimationContext) : M AnimationContext :=
  modify_scene (set_frame_counter (Some 0)) ;;;
  modify_scene (set_animation
                  (Some {| default_framerate := fps self; writes := [] |})) ;;;
  ret self.

(** The result is the truth value of what [__exit__] returns: it returns
    nothing, which is false.  [exc] is the in-flight exception, if any.
    meshcat's [set_animation] lowers the clip it is given before anything is
    sent: given [None] it raises [AttributeError], nothing is published, and
    the two assignments that follow do not run. *)
Definition __exit__ (self : AnimationContext) (exc : option exn) : M bool :=
  s <- get_scene ;;
  match _animation s with
  | Some a =>
      emit (ESetAnimation ("animations/" +:+ name self) (Some a)) ;;;
      modify_scene (set_animation None) ;;;
      modify_scene (set_frame_counter None) ;;;
      ret false
  | None => raise AttributeError
  end.

(** Python's [with ctx: body]: [__exit__] runs however the body ends, and
    an exception of the body is swallowed only when [__exit__] returns a
    true value; an exception of [__exit__] itself is the outcome of the
    statement. *)
Definition with_ (ctx : AnimationContext) (body : M unit) : M unit := λ w,
  match __enter__ ctx w with
  | (Raise e, w0) => (Raise e, w0)
  | (Ok _, w0) =>
      match body w0 with
      | (Ok _, w1) => (__exit__ ctx None ;;; ret tt) w1
      | (Raise e, w1) =>
          (suppress <- __exit__ ctx (Some e) ;;
           if suppress : bool then ret tt else raise e) w1
      end
  end.

(** ** What a client can do to a scene *)

Inductive op :=
| op_add_object (obj : ObjRef) (verbose : bool)
| op_remove_object (obj : ObjRef) (verbose : bool)
| op_add_robot (robot : RobotRef) (verbose : bool)
| op_remove_robot (robot : RobotRef) (verbose : bool)
| op_render
| op_enter (ctx : AnimationContext)
| op_exit (ctx : AnimationContext) (exc : option exn)
| op_camera_pos (p : list scalar)
| op_camera_rot (r : matrix)
| op_camera_zoom (z : scalar)
| op_mutate_store (f : Store → Store).

Definition run_op (o : op) : M unit :=
  match o with
  | op_add_object obj v => add_object obj v
  | op_remove_object obj v => remove_object obj v
  | op_add_robot r v => add_robot r v
  | op_remove_robot r v => remove_robot r v
  | op_render => render
  | op_enter ctx => __enter__ ctx ;;; ret tt
  | op_exit ctx exc => __exit__ ctx exc ;;; ret tt
  | op_camera_pos p => camera_pos_setter p
  | op_camera_rot r => camera_rot_setter r
  | op_camera_zoom z => modify_scene (set_camera_zoom z)
  | op_mutate_store f => modify_store f
  end.

(** The states a scene can be in: freshly constructed, or one operation
    after a reachable state, whether that operation returned or raised. *)
Inductive reachable : World → Prop :=
| reachable_init open wait_for_open st :
    reachable (Scene_init open wait_for_open st)
| reachable_step w o :
    reachable w → reachable (run_op o w).2.

Fixpoint repeat_m (n : nat) (c : M unit) : M unit :=
  match n with
  | 0 => ret tt
  | S n' => c ;;; repeat_m n' c
  end.
End Scene.

(** ** Descriptions of the calls of one [render] *)

Section Traces.
Context `{Kinematics}.

(** The store after [fk()] ran on each robot of [rs], first to last. *)
Definition fk_all (rs : list RobotRef) (st : Store) : Store :=
  foldl (λ st r, fk r st) st rs.

(** The handle [render] writes to. *)
Definition render_target (s : Scene) : target :=
  match _animation s, _animation_frame_counter s with
  | Some _, Some n => Frame n
  | _, _ => Live
  end.

Definition zoom_jstype (s : Scene) : option string :=
  match _animation s with Some _ => Some "number" | None => None end.

Definition camera_calls (t : target) (s : Scene) : list call :=
  [ESetTransform t "/Cameras/default" (camera_pose s);
   ESetProperty t "/Cameras/default/rotated/<object>" "zoom" (zoom_jstype s)
     (VNum (camera_zoom s))].

Definition object_calls (t : target) (st : Store) (d : list (string * ObjRef)) : list call :=
  map (λ '(_, obj), ESetTransform t (o_name (objs st obj)) (pose (objs st obj))) d.

(** The same writes as entries of the clip, tagged with frame [n]. *)
Definition camera_writes (n : nat) (s : Scene) : list (nat * string * write) :=
  [(n, "/Cameras/default", WTransform (camera_pose s));
   (n, "/Cameras/default/rotated/<object>", WProperty "zoom" "number" (VNum (camera_zoom s)))].

Definition object_writes (n : nat) (st : Store) (d : list (string * ObjRef))
  : list (nat * string * write) :=
  map (λ '(_, obj), (n, o_name (objs st obj), WTransform (pose (objs st obj)))) d.

(** The order of the calls of one [render] as the specification words it:
    kinematics, then the objects, then the camera. *)
Definition spec_render_calls (w : World) : list call :=
  let s := scene w in
  let st' := fk_all (Dict.values (robots s)) (store w) in
  map EFk (Dict.values (robots s))
  ++ object_calls (render_target s) st' (objects s)
  ++ camera_calls (render_target s) s.

(** The order the code has: the camera, then kinematics, then the objects. *)
Definition code_render_calls (w : World) : list call :=
  let s := scene w in
  let st' := fk_all (Dict.values (robots s)) (store w) in
  camera_calls (render_target s) s
  ++ map EFk (Dict.values (robots s))
  ++ object_calls (render_target s) st' (objects s).

(** The zoom writes among some calls: where each went, with which type
    annotation, and the value. *)
Definition zoom_calls (cs : list call) : list (target * option string * value) :=
  omap (λ c, match c with
             | ESetProperty t _ key ty v =>
                 if String.eqb key "zoom" then Some (t, ty, v) else None
             | _ => None
             end) cs.

Definition is_frame_call (c : call) : bool :=
  match c with
  | ESetTransform (Frame _) _ _ | ESetProperty (Frame _) _ _ _ _ => true
  | _ => false
  end.

(** The attributes that registering and unregistering leave alone: the
    camera and the two animation attributes. *)
Definition camera_and_animation (w : World)
  : matrix * scalar * option Animation * option nat :=
  (camera_pose (scene w), camera_zoom (scene w),
   _animation (scene w), _animation_frame_counter (scene w)).

(** The frame indices of the entries of a clip, oldest first. *)
Definition frame_indices (a : Animation) : list nat :=
  map (λ x, x.1.1) (writes a).

(** The number of calls one [render] makes. *)
Definition render_size (s : Scene) : nat :=
  2 + length (robots s) + length (objects s).

(** Both animation attributes are set, or neither. *)
Definition animation_consistent (s : Scene) : Prop :=
  _animation s = None ↔ _animation_frame_counter s = None.
(** ** Descriptions of registering a robot's links *)

(** The [objects] dict after [add_object] ran on each object of [l]. *)
Definition register_all (st : Store) (l : list ObjRef) (d : list (string * ObjRef))
  : list (string * ObjRef) :=
  foldl (λ d obj, Dict.set (o_name (objs st obj)) obj d) d l.

Definition set_object_call (st : Store) (obj : ObjRef) : call :=
  ESetObject (o_name (objs st obj)) (geometry (objs st obj)) (material (objs st obj)).

Definition is_print (c : call) : bool :=
  match c with EPrint _ => true | _ => false end.

(** The clips published among some calls, each with its path. *)
Definition published (cs : list call) : list (string * option Animation) :=
  omap (λ c, match c with ESetAnimation path a => Some (path, a) | _ => None end) cs.

(** A call on the visualizer itself, as opposed to one on a frame handle, on
    a robot or on the console. *)
Definition is_visualizer_call (c : call) : bool :=
  match c with
  | EOpen | EWait | ESetObject _ _ _ | EDelete _ | ESetAnimation _ _
  | ESetTransform Live _ _ | ESetProperty Live _ _ _ _ => true
  | _ => false
  end.
End Traces.

(** ** A concrete scene: integer scalars, one robot with two links *)

Module Demo.
#[export] Instance collab : Collaborators :=
  {| scalar := Z; scalar_zero := 0%Z; scalar_one := 1%Z;
     Geometry := string; Material := string; Config := Z |}.

Definition translation (x : Z) : matrix :=
  [[1; 0; 0; x]; [0; 1; 0; 0]; [0; 0; 1; 0]; [0; 0; 0; 1]]%Z.

Definition box : Object :=
  {| o_name := "box"; geometry := "cube"; material := "red"; pose := translation 0 |}.
Definition box' : Object :=
  {| o_name := "box"; geometry := "sphere"; material := "blue"; pose := translation 5 |}.
Definition link0 : Object :=
  {| o_name := "arm/link0"; geometry := "mesh0"; material := "grey"; pose := translation 0 |}.
Definition link1 : Object :=
  {| o_name := "arm/link1"; geometry := "mesh1"; material := "grey"; pose := translation 0 |}.
Definition ball : Object :=
  {| o_name := "ball"; geometry := "sphere"; material := "green"; pose := translation 2 |}.
Definition arm : Robot :=
  {| r_name := "arm"; r_objects := [("link0", 2); ("link1", 3)]; r_config := 7%Z |}.

Definition st0 : Store :=
  {| objs := λ i, match i with 0 => box | 1 => box' | 2 => link0 | 3 => link1 | _ => ball end;
     robs := λ _, arm |}.

(** A forward kinematics that moves every link of the robot to the
    translation by its configuration. *)
Definition move_links (r : RobotRef) (st : Store) : Store :=
  {| objs := λ i,
       if existsb (Nat.eqb i) (Dict.values (r_objects (robs st r)))
       then {| o_name := o_name (objs st i); geometry := geometry (objs st i);
               material := material (objs st i);
               pose := translation (r_config (robs st r)) |}
       else objs st i;
     robs := robs st |}.

#[export] Instance kin : Kinematics := {| fk := move_links |}.

Definition w0 : World := Scene_init true true st0.

(** The box and the arm registered, no capture. *)
Definition w_live : World :=
  ((add_object 0 true ;;; add_robot 0 true)%py w0).2.

(** The same scene inside [with scene.animation(fps=30)]. *)
Definition w_capture : World :=
  (__enter__ (animation 30) w_live).2.

(** A block that renders one frame and then fails. *)
Definition failing_block : M unit :=
  (render ;;; raise (UserError "stop"))%py.
End Demo.

(** * Properties *)

Section Proofs.
Context `{Kinematics}.

(** ** The dictionary *)

Lemma dict_mem_keys {V} k (d : list (string * V)) :
  Dict.mem k d = true ↔ k ∈ Dict.keys d.
Proof.
  unfold Dict.mem, Dict.keys. induction d as [|[k' v] d IH]; simpl.
  - split; [discriminate | intros Hin; inversion Hin].
  - destruct (decide (k = k')) as [->|Hne].
    + split; [intros _; left | reflexivity].
    + rewrite IH. split; [by right | ].
      intros Hin. apply elem_of_cons in Hin as [?|?]; [congruence | done].
Qed.

Lemma dict_set_present {V} k (v : V) d :
  k ∈ Dict.keys d →
  Dict.keys (Dict.set k v d) = Dict.keys d ∧ Dict.get k (Dict.set k v d) = Some v.
Proof.
  unfold Dict.keys. induction d as [|[k' v'] d IH]; simpl.
  - intros Hin; inversion Hin.
  - intros Hin. destruct (decide (k = k')) as [->|Hne]; simpl.
    + split; [reflexivity | by rewrite decide_True].
    + apply elem_of_cons in Hin as [?|Hin]; [congruence | ].
      destruct (IH Hin) as [-> ->]. by rewrite decide_False.
Qed.

Lemma dict_pop_absent {V} k (d : list (string * V)) :
  k ∉ Dict.keys d → Dict.pop k d = None.
Proof.
  unfold Dict.keys. induction d as [|[k' v'] d IH]; simpl; [done | ].
  intros Hnin. apply not_elem_of_cons in Hnin as [Hne Hnin].
  rewrite decide_False by done. by rewrite IH.
Qed.

Lemma dict_pop_present {V} k (d : list (string * V)) :
  k ∈ Dict.keys d →
  ∃ v d', Dict.pop k d = Some (v, d') ∧ Dict.get k d = Some v
          ∧ length d = S (length d')
          ∧ (NoDup (Dict.keys d) → k ∉ Dict.keys d').
Proof.
  unfold Dict.keys. induction d as [|[k' v'] d IH]; simpl.
  - intros Hin; inversion Hin.
  - intros Hin. destruct (decide (k = k')) as [->|Hne].
    + exists v', d. repeat split; try done.
      intros Hnd. by apply NoDup_cons in Hnd as [? _].
    + apply elem_of_cons in Hin as [?|Hin]; [congruence | ].
      destruct (IH Hin) as (v & d' & -> & -> & Hlen & Hnd).
      exists v, ((k', v') :: d'). simpl. repeat split; try done.
      * by rewrite Hlen.
      * intros Hnd'. apply NoDup_cons in Hnd' as [_ Hnd'].
        apply not_elem_of_cons. split; [done | by apply Hnd].
Qed.

(** ** The loops of [render] *)

Lemma for_each_fk rs w :
  for_each rs (λ robot, emit (EFk robot) ;;; modify_store (fk robot))%py w
  = (Ok tt, {| scene := scene w; store := fk_all rs (store w);
               calls := calls w ++ map EFk rs |}).
Proof.
  revert w. induction rs as [|r rs IH]; intros [s st cs]; simpl.
  - unfold ret. by rewrite app_nil_r.
  - unfold bind at 1. simpl. rewrite IH. simpl. by rewrite <- app_assoc.
Qed.

Lemma for_each_live d w :
  for_each d (λ '(k, obj),
      st <- get_store ;;
      tree_set_transform Live (o_name (objs st obj)) (pose (objs st obj)))%py w
  = (Ok tt, {| scene := scene w; store := store w;
               calls := calls w ++ object_calls Live (store w) d |}).
Proof.
  revert w. induction d as [|[k obj] d IH]; intros [s st cs]; simpl.
  - unfold ret. by rewrite app_nil_r.
  - unfold bind at 1. simpl. rewrite IH. simpl. by rewrite <- app_assoc.
Qed.

Lemma for_each_frame n d s a st cs :
  _animation s = Some a →
  for_each d (λ '(k, obj),
      st <- get_store ;;
      tree_set_transform (Frame n) (o_name (objs st obj)) (pose (objs st obj)))%py
    {| scene := s; store := st; calls := cs |}
  = (Ok tt,
     {| scene := set_animation
                   (Some {| default_framerate := default_framerate a;
                            writes := writes a ++ object_writes n st d |}) s;
        store := st;
        calls := cs ++ object_calls (Frame n) st d |}).
Proof.
  revert s a cs. induction d as [|[k obj] d IH]; intros s a cs Ha; simpl.
  - unfold ret. rewrite !app_nil_r. do 2 f_equal.
    destruct s, a; simpl in *. unfold set_animation; simpl. by subst.
  - unfold bind at 1. simpl. unfold record_write. rewrite Ha.
    erewrite IH by reflexivity. simpl. rewrite <- !app_assoc. done.
Qed.
(** ** One [render], in each of the states it can find *)

Lemma render_live w :
  _animation (scene w) = None →
  render w
  = (Ok tt, {| scene := scene w;
               store := fk_all (Dict.values (robots (scene w))) (store w);
               calls := calls w ++ code_render_calls w |}).
Proof.
  destruct w as [[os rs cp cz an fc] st cs]. simpl. intros ->.
  unfold code_render_calls, render, _update_camera, _update_visualization_tree.
  simpl. rewrite for_each_fk. simpl. rewrite for_each_live. simpl.
  by rewrite <- !app_assoc.
Qed.

Lemma render_capture w a n :
  _animation (scene w) = Some a →
  _animation_frame_counter (scene w) = Some n →
  let st' := fk_all (Dict.values (robots (scene w))) (store w) in
  render w
  = (Ok tt,
     {| scene :=
          {| objects := objects (scene w); robots := robots (scene w);
             camera_pose := camera_pose (scene w);
             camera_zoom := camera_zoom (scene w);
             _animation :=
               Some {| default_framerate := default_framerate a;
                       writes := writes a ++ camera_writes n (scene w)
                                 ++ object_writes n st' (objects (scene w)) |};
             _animation_frame_counter := Some (S n) |};
        store := st';
        calls := calls w ++ code_render_calls w |}).
Proof.
  destruct w as [[os rs cp cz an fc] st cs]. simpl. intros -> ->.
  unfold code_render_calls, render, _update_camera, _update_visualization_tree,
    next_frame.
  simpl. rewrite for_each_fk. simpl.
  etrans; [by eapply for_each_frame | ]. simpl.
  by rewrite <- !app_assoc.
Qed.

Lemma render_type_error w a :
  _animation (scene w) = Some a →
  _animation_frame_counter (scene w) = None →
  render w = (Raise TypeError, w).
Proof.
  destruct w as [[os rs cp cz an fc] st cs]. simpl. by intros -> ->.
Qed.
(** ** Adding and removing objects *)

(** C6: when the name of [obj] is already a key of [objects],
    [add_object(obj)] returns normally; afterwards the name is bound to
    [obj], the keys are the same keys in the same order (so they stay
    unique), and the calls made are the warning (printed when [verbose],
    which is the default) followed by the [set_object] write. *)
Theorem add_object_replaces w obj verbose :
  let o := objs (store w) obj in
  o_name o ∈ Dict.keys (objects (scene w)) →
  ∃ w',
    add_object obj verbose w = (Ok tt, w')
    ∧ Dict.get (o_name o) (objects (scene w')) = Some obj
    ∧ Dict.keys (objects (scene w')) = Dict.keys (objects (scene w))
    ∧ (NoDup (Dict.keys (objects (scene w))) →
       NoDup (Dict.keys (objects (scene w'))))
    ∧ calls w'
      = calls w
        ++ (if verbose
            then [EPrint "Object with the same name is already inside the scene, it will be replaced. "]
            else [])
        ++ [ESetObject (o_name o) (geometry o) (material o)].
Proof.
  destruct w as [[os rs cp cz an fc] st cs]. simpl. intros Hin.
  pose proof (proj2 (dict_mem_keys _ _) Hin) as Hmem.
  destruct (dict_set_present (o_name (objs st obj)) obj os Hin) as [Hkeys Hget].
  unfold add_object. simpl. rewrite Hmem.
  destruct verbose; simpl; eexists; (split; [reflexivity | ]); simpl;
    rewrite Hkeys, Hget, <- ?app_assoc; auto.
Qed.

(** C5: while a capture is active, [remove_object(obj, verbose=True)]
    returns normally, changes nothing in the scene and prints the warning;
    and when the object is registered, the same call made after the
    capture has ended ([__exit__]) removes it and issues the delete. *)
Theorem remove_object_refused_then_allowed w obj ctx exc :
  let nm := o_name (objs (store w) obj) in
  _animation (scene w) ≠ None →
  remove_object obj true w
  = (Ok tt, {| scene := scene w; store := store w;
               calls := calls w
                        ++ [EPrint "Removing object while animating is not allowed."] |})
  ∧ (nm ∈ Dict.keys (objects (scene w)) →
     ∃ v d w',
       Dict.pop nm (objects (scene w)) = Some (v, d)
       ∧ (remove_object obj true ;;; __exit__ ctx exc ;;; remove_object obj true)%py w
         = (Ok tt, w')
       ∧ objects (scene w') = d
       ∧ length (objects (scene w)) = S (length d)
       ∧ (NoDup (Dict.keys (objects (scene w))) → nm ∉ Dict.keys d)
       ∧ calls w'
         = calls w
           ++ [EPrint "Removing object while animating is not allowed.";
               ESetAnimation ("animations/" +:+ name ctx) (_animation (scene w));
               EDelete nm]).
Proof.
  destruct w as [[os rs cp cz an fc] st cs]. simpl. intros Ha.
  destruct an as [a|]; [clear Ha | done].
  split; [reflexivity | ]. intros Hin.
  destruct (dict_pop_present _ _ Hin) as (v & d & Hpop & _ & Hlen & Hnd).
  exists v, d. unfold remove_object. simpl. rewrite Hpop. simpl.
  eexists. repeat split; try done. simpl. by rewrite <- !app_assoc.
Qed.

(** C10: when the guard of [remove_object] does not return early (no
    capture is active, or [verbose] is false) and the name of the object is
    not a key of [objects], the call raises [KeyError] and leaves the scene,
    the store and the log of calls as they were: no delete is issued. *)
Theorem remove_object_missing_key w obj verbose :
  let nm := o_name (objs (store w) obj) in
  _animation (scene w) = None ∨ verbose = false →
  nm ∉ Dict.keys (objects (scene w)) →
  remove_object obj verbose w = (Raise (KeyError nm), w)
  ∧ EDelete nm ∉ drop (length (calls w)) (calls (remove_object obj verbose w).2).
Proof.
  destruct w as [[os rs cp cz an fc] st cs]. simpl. intros Hguard Hnin.
  assert (remove_object obj verbose
            {| scene := {| objects := os; robots := rs; camera_pose := cp;
                           camera_zoom := cz; _animation := an;
                           _animation_frame_counter := fc |};
               store := st; calls := cs |}
          = (Raise (KeyError (o_name (objs st obj))),
             {| scene := {| objects := os; robots := rs; camera_pose := cp;
                            camera_zoom := cz; _animation := an;
                            _animation_frame_counter := fc |};
                store := st; calls := cs |})) as Heq.
  { unfold remove_object. simpl.
    replace (verbose && bool_decide (an ≠ None)) with false.
    - simpl. by rewrite (dict_pop_absent _ _ Hnin).
    - destruct Hguard as [-> | ->]; [ | done].
      by rewrite andb_false_r. }
  split; [exact Heq | ]. rewrite Heq. simpl.
  rewrite drop_ge by done. apply not_elem_of_nil.
Qed.
(** ** The calls of [render] *)

Lemma render_ok w :
  animation_consistent (scene w) →
  ∃ w', render w = (Ok tt, w')
        ∧ calls w' = calls w ++ code_render_calls w
        ∧ store w' = fk_all (Dict.values (robots (scene w))) (store w)
        ∧ objects (scene w') = objects (scene w)
        ∧ robots (scene w') = robots (scene w).
Proof.
  intros Hc. destruct (_animation (scene w)) as [a|] eqn:Ha.
  - destruct (_animation_frame_counter (scene w)) as [n|] eqn:Hn.
    + eexists. split; [by apply (render_capture w a n) | done].
    + destruct Hc as [_ Hc]. specialize (Hc Hn). congruence.
  - eexists. split; [by apply render_live | done].
Qed.

(** C2, amended: a [render] that finds the animation attributes consistent
    returns normally and makes its calls in this order: the camera pose and
    the camera zoom, then [fk()] on every registered robot, then for each
    registered object a transform write of its pose, as it is after the
    kinematics ran, at its name. *)
Theorem render_calls_in_order w :
  animation_consistent (scene w) →
  let s := scene w in
  let t := render_target s in
  let st' := fk_all (Dict.values (robots s)) (store w) in
  ∃ w',
    render w = (Ok tt, w')
    ∧ calls w'
      = calls w
        ++ [ESetTransform t "/Cameras/default" (camera_pose s);
            ESetProperty t "/Cameras/default/rotated/<object>" "zoom"
              (zoom_jstype s) (VNum (camera_zoom s))]
        ++ map EFk (Dict.values (robots s))
        ++ map (λ '(_, obj), ESetTransform t (o_name (objs st' obj)) (pose (objs st' obj)))
             (objects s).
Proof.
  intros Hc. simpl. destruct (render_ok w Hc) as (w' & Hr & Hcalls & _).
  exists w'. split; [done | ]. by rewrite Hcalls.
Qed.

Lemma zoom_calls_fk rs : zoom_calls (map EFk rs) = [].
Proof. by induction rs. Qed.

Lemma zoom_calls_objects t st d : zoom_calls (object_calls t st d) = [].
Proof. by induction d as [|[k obj] d IH]. Qed.

(** C9: the zoom write of a [render] tick.  With no capture active it goes
    to the live tree as a plain property value (no type annotation); with a
    capture active it goes to the frame with the type annotation
    ["number"].  It is the only zoom write of the tick. *)
Theorem zoom_write_by_mode w :
  animation_consistent (scene w) →
  ∃ w',
    render w = (Ok tt, w')
    ∧ match _animation (scene w) with
      | None =>
          zoom_calls (drop (length (calls w)) (calls w'))
          = [(Live, None, VNum (camera_zoom (scene w)))]
      | Some _ =>
          ∃ n, _animation_frame_counter (scene w) = Some n
               ∧ zoom_calls (drop (length (calls w)) (calls w'))
                 = [(Frame n, Some "number", VNum (camera_zoom (scene w)))]
      end.
Proof.
  intros Hc. destruct (render_ok w Hc) as (w' & Hr & Hcalls & _).
  exists w'. split; [done | ]. rewrite Hcalls, drop_app_length.
  unfold code_render_calls, zoom_calls. rewrite !omap_app.
  fold (zoom_calls (map EFk (Dict.values (robots (scene w))))).
  rewrite zoom_calls_fk. simpl.
  match goal with |- context [omap ?f (object_calls ?t ?st ?d)] =>
    change (omap f (object_calls t st d)) with (zoom_calls (object_calls t st d))
  end.
  rewrite zoom_calls_objects. unfold render_target, zoom_jstype.
  destruct (_animation (scene w)) as [a|] eqn:Ha; [ | done].
  destruct (_animation_frame_counter (scene w)) as [n|] eqn:Hn.
  - by exists n.
  - destruct Hc as [_ Hc]. specialize (Hc Hn). congruence.
Qed.
(** ** The camera properties *)

Lemma length_S_inv {A} (l : list A) n :
  length l = S n → ∃ x l', l = x :: l' ∧ length l' = n.
Proof. destruct l as [|x l']; [done | ]. intros [= <-]. by exists x, l'. Qed.

Ltac explode_list l Hl :=
  repeat (let x := fresh "x" in
          let Hx := fresh in
          apply length_S_inv in Hl as (x & ? & Hx & Hl); subst l;
          match type of Hl with length ?l' = _ => rename l' into l end);
  apply nil_length_inv in Hl; subst l.

Ltac explode_shape Hm :=
  let Hlen := fresh "Hlen" in
  let Hrows := fresh "Hrows" in
  destruct Hm as [Hlen Hrows];
  match type of Hlen with length ?m = _ => explode_list m Hlen end;
  repeat match goal with
    | Hf : Forall _ (_ :: _) |- _ =>
        let Hrow := fresh "Hrow" in
        apply Forall_cons in Hf as [Hrow Hf];
        match type of Hrow with length ?row = _ => explode_list row Hrow end
    end.

(** C7: on a scene whose [camera_pose] is a 4 by 4 array, assigning a
    3-vector [p] to [camera_pos] succeeds, reading [camera_pos] afterwards
    gives [p], and [camera_rot] (rows and columns 0 to 2) reads as before;
    assigning a 3 by 3 array [r] to [camera_rot] succeeds, [camera_rot]
    then reads [r], and [camera_pos] (column 3, rows 0 to 2) reads as
    before. *)
Theorem camera_pos_rot_independent w p r :
  is_shape 4 4 (camera_pose (scene w)) →
  length p = 3 →
  is_shape 3 3 r →
  (∃ w1, camera_pos_setter p w = (Ok tt, w1)
         ∧ camera_pos (scene w1) = Ok p
         ∧ camera_rot (scene w1) = camera_rot (scene w))
  ∧ (∃ w2, camera_rot_setter r w = (Ok tt, w2)
           ∧ camera_rot (scene w2) = Ok r
           ∧ camera_pos (scene w2) = camera_pos (scene w)).
Proof.
  destruct w as [[os rs cp cz an fc] st cs]. simpl. intros Hm Hp Hr.
  explode_shape Hm. explode_list p Hp. explode_shape Hr.
  split; eexists; (split; [reflexivity | ]); by split.
Qed.
(** ** The animation attributes *)

Lemma for_each_invariant {A} (P : World → Prop) (body : A → M unit) l :
  (∀ x w, P w → P (body x w).2) →
  ∀ w, P w → P (for_each l body w).2.
Proof.
  intros Hbody. induction l as [|x l IH]; intros w Hw; simpl; [done | ].
  specialize (Hbody x w Hw). destruct (body x w) as [[[]|e] w1]; simpl in *.
  - by apply IH.
  - done.
Qed.

Ltac case_if :=
  match goal with
  | |- context [if ?b then _ else _] => destruct b
  | |- context [Dict.pop ?k ?d] => destruct (Dict.pop k d) as [[? ?]|]
  end.

Lemma add_object_camera_and_animation obj verbose w :
  camera_and_animation (add_object obj verbose w).2 = camera_and_animation w.
Proof.
  destruct w as [[os rs cp cz an fc] st cs]. unfold add_object. simpl.
  by case_if.
Qed.

Lemma remove_object_camera_and_animation obj verbose w :
  camera_and_animation (remove_object obj verbose w).2 = camera_and_animation w.
Proof.
  destruct w as [[os rs cp cz an fc] st cs]. unfold remove_object. simpl.
  case_if; [done | ]. simpl. by case_if.
Qed.

Lemma add_robot_camera_and_animation robot verbose w :
  camera_and_animation (add_robot robot verbose w).2 = camera_and_animation w.
Proof.
  destruct w as [[os rs cp cz an fc] st cs]. unfold add_robot. simpl.
  case_if; simpl;
    (apply (for_each_invariant (λ w', camera_and_animation w' = (cp, cz, an, fc))); [ | done]);
    intros x w' <-; apply add_object_camera_and_animation.
Qed.

Lemma remove_robot_camera_and_animation robot verbose w :
  camera_and_animation (remove_robot robot verbose w).2 = camera_and_animation w.
Proof.
  destruct w as [[os rs cp cz an fc] st cs]. unfold remove_robot. simpl.
  case_if; [done | ]. simpl. case_if; [ | done]. simpl.
  apply (for_each_invariant (λ w', camera_and_animation w' = (cp, cz, an, fc))); [ | done].
  intros x w' <-. apply remove_object_camera_and_animation.
Qed.

Lemma render_consistent w :
  animation_consistent (scene w) → animation_consistent (scene (render w).2).
Proof.
  intros Hc. destruct (_animation (scene w)) as [a|] eqn:Ha.
  - destruct (_animation_frame_counter (scene w)) as [n|] eqn:Hn.
    + rewrite (render_capture w a n Ha Hn). by split.
    + by rewrite (render_type_error w a Ha Hn).
  - by rewrite (render_live w Ha).
Qed.

Lemma run_op_consistent o w :
  animation_consistent (scene w) → animation_consistent (scene (run_op o w).2).
Proof.
  assert (∀ w', camera_and_animation w' = camera_and_animation w →
                animation_consistent (scene w) →
                animation_consistent (scene w')) as Hsame.
  { unfold camera_and_animation, animation_consistent. intros w' [= _ _ -> ->]. done. }
  intros Hc. destruct o; simpl.
  - apply Hsame; [apply add_object_camera_and_animation | done].
  - apply Hsame; [apply remove_object_camera_and_animation | done].
  - apply Hsame; [apply add_robot_camera_and_animation | done].
  - apply Hsame; [apply remove_robot_camera_and_animation | done].
  - by apply render_consistent.
  - done.
  - unfold __exit__. simpl. by destruct (_animation (scene w)).
  - unfold camera_pos_setter. simpl.
    by destruct (set_col3 _ _).
  - unfold camera_rot_setter. simpl.
    by destruct (set_block33 _ _).
  - done.
  - done.
Qed.

Lemma broadcast_length {A} n (l l' : list A) :
  broadcast n l = Some l' → length l' = n.
Proof.
  unfold broadcast. destruct (decide (length l = n)) as [Hl|_].
  - by intros [= <-].
  - destruct l as [|x [|y l]]; try done. intros [= <-]. apply length_replicate.
Qed.

Lemma mapM_broadcast_rows n (r rows : list (list scalar)) :
  mapM (broadcast n) r = Some rows → Forall (λ row, length row = n) rows.
Proof.
  intros Hr. apply mapM_Some in Hr.
  induction Hr as [|x y r rows Hxy _ IH]; constructor; [ | done].
  by apply broadcast_length in Hxy.
Qed.

Lemma set_col3_shape p m m' :
  is_shape 4 4 m → set_col3 p m = Ok m' → is_shape 4 4 m'.
Proof.
  intros Hm. explode_shape Hm. unfold set_col3. simpl.
  destruct (broadcast 3 p) as [p'|] eqn:Hp; [ | done].
  pose proof (broadcast_length _ _ _ Hp) as Hlen. explode_list p' Hlen.
  intros [= <-]. split; [done | repeat constructor].
Qed.

Lemma set_block33_shape r m m' :
  is_shape 4 4 m → set_block33 r m = Ok m' → is_shape 4 4 m'.
Proof.
  intros Hm. explode_shape Hm. unfold set_block33. simpl.
  destruct (rect r); [ | done].
  destruct (mapM (broadcast 3) r) as [rows|] eqn:Hmap; [ | done].
  apply mapM_broadcast_rows in Hmap.
  destruct (broadcast 3 rows) as [r'|] eqn:Hr'; [ | done].
  assert (Forall (λ row, length row = 3) r') as Hall.
  { unfold broadcast in Hr'. destruct (decide (length rows = 3)).
    - by injection Hr' as <-.
    - destruct rows as [|row0 [|row1 rows]]; try done. injection Hr' as <-.
      apply Forall_cons in Hmap as [Hrow0 _]. by repeat constructor. }
  pose proof (broadcast_length _ _ _ Hr') as Hlen. explode_list r' Hlen.
  intros [= <-]. split; [done | ].
  repeat match goal with
    | Hf : Forall _ (_ :: _) |- _ => apply Forall_cons in Hf as [? Hf]
    end.
  repeat constructor; simpl; rewrite length_app; simpl; lia.
Qed.

(** X15: every reachable scene has a 4 by 4 camera pose: the constructor
    makes one, and no method changes the shape, whatever is assigned to
    [camera_pos] and [camera_rot] (an assignment numpy cannot broadcast
    raises and leaves the pose alone). *)
Lemma reachable_camera_pose w :
  reachable w → is_shape 4 4 (camera_pose (scene w)).
Proof.
  assert (∀ w w', camera_and_animation w' = camera_and_animation w →
                  is_shape 4 4 (camera_pose (scene w)) →
                  is_shape 4 4 (camera_pose (scene w'))) as Hsame.
  { unfold camera_and_animation. intros w0 w' [= -> _ _ _]. done. }
  induction 1 as [open wait st | w o _ IH].
  - split; [done | repeat constructor].
  - destruct o; simpl.
    + eapply Hsame; [apply add_object_camera_and_animation | done].
    + eapply Hsame; [apply remove_object_camera_and_animation | done].
    + eapply Hsame; [apply add_robot_camera_and_animation | done].
    + eapply Hsame; [apply remove_robot_camera_and_animation | done].
    + destruct (_animation (scene w)) as [a|] eqn:Ha.
      * destruct (_animation_frame_counter (scene w)) as [n|] eqn:Hn.
        -- by rewrite (render_capture w a n Ha Hn).
        -- by rewrite (render_type_error w a Ha Hn).
      * by rewrite (render_live w Ha).
    + done.
    + unfold __exit__. simpl. by destruct (_animation (scene w)).
    + unfold camera_pos_setter. simpl.
      destruct (set_col3 _ _) eqn:Hset; [ | done].
      by eapply set_col3_shape.
    + unfold camera_rot_setter. simpl.
      destruct (set_block33 _ _) eqn:Hset; [ | done].
      by eapply set_block33_shape.
    + done.
    + done.
Qed.

(** C8: in every reachable state of a scene the animation clip reference
    and the frame counter are both present or both absent, whichever
    operations led there and whether they returned or raised. *)
Theorem animation_attributes_paired w :
  reachable w →
  (∃ a n, _animation (scene w) = Some a
          ∧ _animation_frame_counter (scene w) = Some n)
  ∨ (_animation (scene w) = None ∧ _animation_frame_counter (scene w) = None).
Proof.
  intros Hw.
  assert (animation_consistent (scene w)) as [H1 H2].
  { induction Hw as [open wait st | w o _ IH]; [done | by apply run_op_consistent]. }
  destruct (_animation (scene w)) as [a|], (_animation_frame_counter (scene w)) as [n|].
  - left. by exists a, n.
  - by specialize (H2 eq_refl).
  - by specialize (H1 eq_refl).
  - by right.
Qed.
(** ** A capture *)

(** C4: [with ctx: body] ends with [__exit__] however the body ended.
    When the scene still refers to a clip at that point (the body did not
    itself end the capture), that clip is published at [animations/<name>],
    after which both animation attributes are cleared and nothing else has
    changed; [__exit__] returns a false value, so the outcome of the body, an
    exception included, is the outcome of the whole statement. *)
Theorem with_always_publishes_and_clears ctx body w r w1 :
  body (__enter__ ctx w).2 = (r, w1) →
  _animation (scene w1) ≠ None →
  ∃ w2,
    with_ ctx body w = (r, w2)
    ∧ (∀ exc, __exit__ ctx exc w1 = (Ok false, w2))
    ∧ calls w2
      = calls w1 ++ [ESetAnimation ("animations/" +:+ name ctx) (_animation (scene w1))]
    ∧ _animation (scene w2) = None
    ∧ _animation_frame_counter (scene w2) = None
    ∧ objects (scene w2) = objects (scene w1)
    ∧ robots (scene w2) = robots (scene w1)
    ∧ camera_pose (scene w2) = camera_pose (scene w1)
    ∧ camera_zoom (scene w2) = camera_zoom (scene w1)
    ∧ store w2 = store w1.
Proof.
  intros Hbody Ha. unfold with_. simpl in *. rewrite Hbody.
  destruct w1 as [[os rs cp cz [a|] fc] st cs]; [clear Ha | done].
  eexists. split; [ | by split].
  by destruct r as [[]|e].
Qed.

Lemma live_renders k w :
  _animation (scene w) = None →
  ∃ w' new,
    repeat_m k render w = (Ok tt, w')
    ∧ scene w' = scene w
    ∧ calls w' = calls w ++ new
    ∧ Forall (λ c, is_frame_call c = false) new
    ∧ length new = k * render_size (scene w).
Proof.
  revert w. induction k as [|k IH]; intros w Ha; simpl.
  - exists w, []. by rewrite app_nil_r.
  - rewrite (render_live w Ha). simpl.
    edestruct (IH {| scene := scene w;
                     store := fk_all (Dict.values (robots (scene w))) (store w);
                     calls := calls w ++ code_render_calls w |})
      as (w' & new & -> & Hs & Hcalls & Hlive & Hlen); [done | ].
    simpl in *. exists w', (code_render_calls w ++ new).
    split; [done | ]. split; [done | ]. split; [by rewrite Hcalls, app_assoc | ].
    split.
    + apply Forall_app. split; [ | done].
      unfold code_render_calls, render_target, camera_calls, object_calls.
      rewrite Ha. repeat constructor.
      apply Forall_app. split; apply Forall_forall; intros c Hc;
        apply list_elem_of_In, in_map_iff in Hc as (x & <- & _); [done | by destruct x].
    + rewrite length_app, Hlen. f_equal.
      unfold code_render_calls, render_size, object_calls, Dict.values. simpl.
      rewrite length_app, !length_map. lia.
Qed.

Lemma capture_renders k w a n :
  _animation (scene w) = Some a →
  _animation_frame_counter (scene w) = Some n →
  ∃ w' a',
    repeat_m k render w = (Ok tt, w')
    ∧ _animation (scene w') = Some a'
    ∧ _animation_frame_counter (scene w') = Some (n + k)
    ∧ default_framerate a' = default_framerate a
    ∧ frame_indices a'
      = frame_indices a
        ++ flat_map (λ i, replicate (2 + length (objects (scene w))) i) (seq n k).
Proof.
  revert w a n. induction k as [|k IH]; intros w a n Ha Hn; simpl.
  - exists w, a. rewrite Nat.add_0_r, app_nil_r. done.
  - rewrite (render_capture w a n Ha Hn). simpl.
    edestruct IH as (w' & a' & -> & Ha' & Hn' & Hfps & Hidx);
      [simpl; reflexivity | simpl; reflexivity | ].
    exists w', a'. split; [done | ]. split; [done | ].
    split; [by rewrite Hn', Nat.add_succ_r | ]. split; [done | ].
    rewrite Hidx. simpl. unfold frame_indices. simpl.
    rewrite !map_app. simpl. rewrite <- !app_assoc. simpl. do 4 f_equal.
    unfold object_writes. rewrite map_map.
    generalize (objects (scene w)). intros d.
    induction d as [|[k' obj] d IHd]; simpl; [done | by rewrite IHd].
Qed.

(** C3: for every [N], [with ctx:] around [N] calls of [render] returns
    normally and its last call publishes a clip, made at the frame rate of
    the context, whose entries are tagged with the frame indices 0 to [N-1]
    in order, each index on all the writes of one [render] (two for the
    camera and one per object); after [k] of these calls the counter stands
    at [k].  After the exit any number of further [render] calls return
    normally, leave the scene without animation attributes and make only
    calls on the live tree. *)
Theorem capture_then_live ctx N w :
  ∃ a w1,
    with_ ctx (repeat_m N render) w = (Ok tt, w1)
    ∧ last (calls w1) = Some (ESetAnimation ("animations/" +:+ name ctx) (Some a))
    ∧ default_framerate a = fps ctx
    ∧ frame_indices a
      = flat_map (λ i, replicate (2 + length (objects (scene w))) i) (seq 0 N)
    ∧ (∀ k, ∃ wk, (__enter__ ctx ;;; repeat_m k render)%py w = (Ok tt, wk)
                  ∧ _animation_frame_counter (scene wk) = Some k)
    ∧ _animation (scene w1) = None
    ∧ _animation_frame_counter (scene w1) = None
    ∧ (∀ k, ∃ w2 new,
         repeat_m k render w1 = (Ok tt, w2)
         ∧ scene w2 = scene w1
         ∧ calls w2 = calls w1 ++ new
         ∧ Forall (λ c, is_frame_call c = false) new
         ∧ length new = k * render_size (scene w1)).
Proof.
  destruct w as [[os rs cp cz an fc] st cs].
  set (w0 := {| scene := {| objects := os; robots := rs; camera_pose := cp;
                            camera_zoom := cz;
                            _animation := Some {| default_framerate := fps ctx;
                                                  writes := [] |};
                            _animation_frame_counter := Some 0 |};
                store := st; calls := cs |}).
  destruct (capture_renders N w0 _ 0 eq_refl eq_refl)
    as (w' & a & Hrun & Ha & Hn & Hfps & Hidx).
  match goal with |- context [with_ ctx _ ?w] =>
    assert (__enter__ ctx w = (Ok ctx, w0)) as Henter by reflexivity
  end.
  exists a. unfold with_. rewrite Henter, Hrun.
  destruct w' as [[os' rs' cp' cz' an' fc'] st' cs']. simpl in Ha. subst an'. simpl.
  eexists. split; [reflexivity | ]. simpl.
  split; [by rewrite last_snoc | ]. split; [done | ]. split; [done | ].
  split.
  - intros k.
    destruct (capture_renders k w0 _ 0 eq_refl eq_refl)
      as (wk & ak & Hk & _ & Hnk & _).
    exists wk. split; [exact Hk | done].
  - split; [done | ]. split; [done | ]. intros k. by apply live_renders.
Qed.
(** ** More on the dictionary *)

Lemma dict_set_absent {V} k (v : V) d :
  k ∉ Dict.keys d → Dict.set k v d = d ++ [(k, v)].
Proof.
  unfold Dict.keys. induction d as [|[k' v'] d IH]; simpl; [done | ].
  intros Hnin. apply not_elem_of_cons in Hnin as [Hne Hnin].
  rewrite decide_False by done. by rewrite IH.
Qed.

Lemma dict_get_set_eq {V} k (v : V) d : Dict.get k (Dict.set k v d) = Some v.
Proof.
  induction d as [|[k' v'] d IH]; simpl.
  - by rewrite decide_True.
  - destruct (decide (k = k')) as [->|Hne]; simpl.
    + by rewrite decide_True.
    + by rewrite decide_False.
Qed.

Lemma dict_get_set_ne {V} k k' (v : V) d :
  k' ≠ k → Dict.get k' (Dict.set k v d) = Dict.get k' d.
Proof.
  intros Hne. induction d as [|[k0 v0] d IH]; simpl.
  - by rewrite decide_False.
  - destruct (decide (k = k0)) as [->|Hne0]; simpl.
    + by rewrite !decide_False.
    + by rewrite IH.
Qed.

Lemma dict_set_set {V} k (v v' : V) d :
  Dict.set k v' (Dict.set k v d) = Dict.set k v' d.
Proof.
  induction d as [|[k0 v0] d IH]; simpl.
  - by rewrite decide_True.
  - destruct (decide (k = k0)) as [->|Hne]; simpl.
    + by rewrite decide_True.
    + by rewrite decide_False, IH.
Qed.

Lemma dict_set_same {V} k (v : V) d :
  Dict.get k d = Some v → Dict.set k v d = d.
Proof.
  induction d as [|[k0 v0] d IH]; simpl; [done | ].
  destruct (decide (k = k0)) as [->|Hne].
  - by intros [= ->].
  - intros Hget. by rewrite IH.
Qed.

Lemma dict_mem_set {V} k (v : V) d : Dict.mem k (Dict.set k v d) = true.
Proof. unfold Dict.mem. by rewrite dict_get_set_eq. Qed.

Lemma dict_keys_set {V} k k' (v : V) d :
  k' ∈ Dict.keys d → k' ∈ Dict.keys (Dict.set k v d).
Proof.
  unfold Dict.keys. induction d as [|[k0 v0] d IH]; simpl.
  - intros Hin; inversion Hin.
  - intros Hin. destruct (decide (k = k0)) as [->|Hne]; simpl; [done | ].
    apply elem_of_cons in Hin as [->|Hin]; [by left | right; by apply IH].
Qed.

Lemma dict_keys_set_eq {V} k (v : V) d : k ∈ Dict.keys (Dict.set k v d).
Proof. apply dict_mem_keys, dict_mem_set. Qed.

Lemma dict_pop_get_ne {V} k k' (v : V) d d' :
  Dict.pop k d = Some (v, d') → k' ≠ k → Dict.get k' d' = Dict.get k' d.
Proof.
  revert d'. induction d as [|[k0 v0] d IH]; simpl; intros d' Hpop Hne; [done | ].
  destruct (decide (k = k0)) as [->|Hne0].
  - injection Hpop as _ <-. by rewrite decide_False.
  - destruct (Dict.pop k d) as [[x d'']|]; [ | done].
    injection Hpop as -> <-. simpl.
    destruct (decide (k' = k0)); [done | by apply IH].
Qed.

Lemma dict_pop_app_fresh {V} k (v : V) d d2 :
  k ∉ Dict.keys d → Dict.pop k (d ++ (k, v) :: d2) = Some (v, d ++ d2).
Proof.
  unfold Dict.keys. induction d as [|[k' v'] d IH]; simpl.
  - intros _. by rewrite decide_True.
  - intros Hnin. apply not_elem_of_cons in Hnin as [Hne Hnin].
    rewrite decide_False by done. by rewrite IH.
Qed.

(** ** Registering and unregistering objects, beyond the claims *)

Lemma add_object_fresh_eq w obj verbose :
  o_name (objs (store w) obj) ∉ Dict.keys (objects (scene w)) →
  add_object obj verbose w
  = (Ok tt, {| scene := set_objects
                          (objects (scene w) ++ [(o_name (objs (store w) obj), obj)])
                          (scene w);
               store := store w;
               calls := calls w ++ [set_object_call (store w) obj] |}).
Proof.
  destruct w as [[os rs cp cz an fc] st cs]. simpl. intros Hnin.
  assert (Dict.mem (o_name (objs st obj)) os = false) as Hmem.
  { destruct (Dict.mem _ os) eqn:Hm; [ | done]. by apply dict_mem_keys in Hm. }
  unfold add_object. simpl. rewrite Hmem, andb_false_r. simpl.
  by rewrite (dict_set_absent _ _ _ Hnin).
Qed.

(** X1: [add_object] of an object whose name is not yet a key appends the
    binding at the end of [objects] (so it is rendered last), prints no
    warning whatever [verbose] is, and issues one [set_object] write. *)
Theorem add_object_fresh w obj verbose :
  let o := objs (store w) obj in
  o_name o ∉ Dict.keys (objects (scene w)) →
  add_object obj verbose w
  = (Ok tt, {| scene := set_objects (objects (scene w) ++ [(o_name o, obj)]) (scene w);
               store := store w;
               calls := calls w ++ [ESetObject (o_name o) (geometry o) (material o)] |}).
Proof. intros o Hnin. by rewrite (add_object_fresh_eq w obj verbose Hnin). Qed.
(** X2: [add_object] and [remove_object] leave the binding of every other
    name as it was. *)
Theorem object_calls_keep_other_bindings w obj verbose k :
  k ≠ o_name (objs (store w) obj) →
  Dict.get k (objects (scene (add_object obj verbose w).2))
  = Dict.get k (objects (scene w))
  ∧ Dict.get k (objects (scene (remove_object obj verbose w).2))
    = Dict.get k (objects (scene w)).
Proof.
  destruct w as [[os rs cp cz an fc] st cs]. simpl. intros Hne. split.
  - unfold add_object. simpl. case_if; simpl; by apply dict_get_set_ne.
  - unfold remove_object. simpl. case_if; [done | ]. simpl.
    destruct (Dict.pop _ os) as [[v d]|] eqn:Hpop; [ | done]. simpl.
    by apply (dict_pop_get_ne _ _ _ _ _ Hpop).
Qed.

(** X3: when the guard of [remove_object] does not fire (no capture, or
    [verbose] false) and the name of the object is registered,
    [remove_object] returns normally, drops exactly one entry, the one of
    that name, keeps the order of the others, and issues one delete. *)
Theorem remove_object_registered w obj verbose :
  let nm := o_name (objs (store w) obj) in
  _animation (scene w) = None ∨ verbose = false →
  nm ∈ Dict.keys (objects (scene w)) →
  ∃ v d,
    Dict.pop nm (objects (scene w)) = Some (v, d)
    ∧ Dict.get nm (objects (scene w)) = Some v
    ∧ remove_object obj verbose w
      = (Ok tt, {| scene := set_objects d (scene w); store := store w;
                   calls := calls w ++ [EDelete nm] |})
    ∧ length (objects (scene w)) = S (length d)
    ∧ (NoDup (Dict.keys (objects (scene w))) → nm ∉ Dict.keys d).
Proof.
  destruct w as [[os rs cp cz an fc] st cs]. simpl. intros Hguard Hin.
  destruct (dict_pop_present _ _ Hin) as (v & d & Hpop & Hget & Hlen & Hnd).
  exists v, d. repeat split; try done.
  unfold remove_object. simpl.
  replace (verbose && bool_decide (an ≠ None)) with false.
  - simpl. by rewrite Hpop.
  - destruct Hguard as [-> | ->]; [by rewrite andb_false_r | done].
Qed.

(** X4: adding an object under a new name and removing it again, with the
    guard of [remove_object] not firing, gives back the scene as it was; the
    calls made are the [set_object] write and the delete. *)
Theorem add_remove_object_round_trip w obj verbose :
  let o := objs (store w) obj in
  _animation (scene w) = None ∨ verbose = false →
  o_name o ∉ Dict.keys (objects (scene w)) →
  (add_object obj verbose ;;; remove_object obj verbose)%py w
  = (Ok tt, {| scene := scene w; store := store w;
               calls := calls w ++ [ESetObject (o_name o) (geometry o) (material o);
                                    EDelete (o_name o)] |}).
Proof.
  intros o Hguard Hnin. unfold bind.
  rewrite (add_object_fresh_eq w obj verbose Hnin).
  destruct w as [[os rs cp cz an fc] st cs]. simpl in *.
  unfold remove_object. simpl.
  replace (verbose && bool_decide (an ≠ None)) with false.
  - simpl. rewrite (dict_pop_app_fresh _ _ _ [] Hnin). simpl.
    by rewrite app_nil_r, <- app_assoc.
  - destruct Hguard as [-> | ->]; [by rewrite andb_false_r | done].
Qed.

(** X5: [add_object] never fails and has no capture guard: in every state,
    also during a capture, it binds the name to the object, makes no call on
    a frame handle and leaves the clip and the frame counter as they were.
    Adding the same object once more changes nothing in the scene, prints
    the warning and issues the [set_object] write again. *)
Theorem add_object_always_and_again w obj verbose :
  let o := objs (store w) obj in
  ∃ w1 w2 new,
    add_object obj verbose w = (Ok tt, w1)
    ∧ Dict.get (o_name o) (objects (scene w1)) = Some obj
    ∧ calls w1 = calls w ++ new
    ∧ Forall (λ c, is_frame_call c = false) new
    ∧ _animation (scene w1) = _animation (scene w)
    ∧ _animation_frame_counter (scene w1) = _animation_frame_counter (scene w)
    ∧ add_object obj true w1 = (Ok tt, w2)
    ∧ scene w2 = scene w1
    ∧ calls w2
      = calls w1
        ++ [EPrint "Object with the same name is already inside the scene, it will be replaced. ";
            ESetObject (o_name o) (geometry o) (material o)].
Proof.
  destruct w as [[os rs cp cz an fc] st cs]. simpl.
  set (nm := o_name (objs st obj)).
  assert (∀ cs',
    add_object obj true
      {| scene := {| objects := Dict.set nm obj os; robots := rs; camera_pose := cp;
                     camera_zoom := cz; _animation := an;
                     _animation_frame_counter := fc |};
         store := st; calls := cs' |}
    = (Ok tt,
       {| scene := {| objects := Dict.set nm obj os; robots := rs; camera_pose := cp;
                      camera_zoom := cz; _animation := an;
                      _animation_frame_counter := fc |};
          store := st;
          calls := cs' ++ [EPrint "Object with the same name is already inside the scene, it will be replaced. ";
                           set_object_call st obj] |})) as Hagain.
  { intros cs'. unfold add_object. simpl. fold nm.
    rewrite dict_mem_set. simpl. rewrite dict_set_set. by rewrite <- app_assoc. }
  set (warn := if verbose && Dict.mem nm os
               then [EPrint "Object with the same name is already inside the scene, it will be replaced. "]
               else []).
  assert (add_object obj verbose
            {| scene := {| objects := os; robots := rs; camera_pose := cp;
                           camera_zoom := cz; _animation := an;
                           _animation_frame_counter := fc |};
               store := st; calls := cs |}
          = (Ok tt,
             {| scene := {| objects := Dict.set nm obj os; robots := rs;
                            camera_pose := cp; camera_zoom := cz; _animation := an;
                            _animation_frame_counter := fc |};
                store := st;
                calls := cs ++ warn ++ [set_object_call st obj] |})) as Hfirst.
  { unfold add_object, warn. simpl. fold nm.
    destruct (verbose && Dict.mem nm os); simpl; by rewrite <- ?app_assoc. }
  rewrite Hfirst. do 3 eexists. split; [reflexivity | ]. simpl.
  split; [apply dict_get_set_eq | ]. split; [reflexivity | ].
  split; [unfold warn; case_if; by repeat constructor | ].
  split; [done | ]. split; [done | ]. split; [apply Hagain | done].
Qed.
(** ** Registering and unregistering robots *)

Lemma register_all_keys st l d k :
  k ∈ Dict.keys d → k ∈ Dict.keys (register_all st l d).
Proof.
  revert d. induction l as [|obj l IH]; intros d Hin; simpl; [done | ].
  by apply IH, dict_keys_set.
Qed.

Lemma register_all_links st l d obj :
  obj ∈ l → o_name (objs st obj) ∈ Dict.keys (register_all st l d).
Proof.
  revert d. induction l as [|x l IH]; intros d Hin; simpl.
  - inversion Hin.
  - apply elem_of_cons in Hin as [->|Hin]; [ | by apply IH].
    apply register_all_keys, dict_keys_set_eq.
Qed.

Lemma for_each_add_object verbose l s st cs :
  ∃ new,
    for_each l (λ obj, add_object obj verbose) {| scene := s; store := st; calls := cs |}
    = (Ok tt, {| scene := set_objects (register_all st l (objects s)) s;
                 store := st; calls := cs ++ new |})
    ∧ List.filter (λ c, negb (is_print c)) new = map (set_object_call st) l
    ∧ (verbose = false → new = map (set_object_call st) l)
    ∧ Forall (λ c, is_frame_call c = false) new.
Proof.
  revert s cs. induction l as [|obj l IH]; intros s cs; simpl.
  - exists []. rewrite app_nil_r. by destruct s.
  - destruct s as [os rs cp cz an fc]. unfold add_object at 1. simpl.
    set (warn := if verbose && Dict.mem (o_name (objs st obj)) os
                 then [EPrint "Object with the same name is already inside the scene, it will be replaced. "]
                 else []).
    edestruct (IH {| objects := Dict.set (o_name (objs st obj)) obj os; robots := rs;
                     camera_pose := cp; camera_zoom := cz; _animation := an;
                     _animation_frame_counter := fc |}
                  (cs ++ warn ++ [set_object_call st obj]))
      as (new & Hrun & Hfilter & Hquiet & Hlive).
    exists (warn ++ [set_object_call st obj] ++ new).
    split; [ | split; [ | split]].
    + unfold warn in *. destruct (verbose && Dict.mem _ os); simpl in *;
        rewrite <- ?app_assoc; simpl; (etrans; [exact Hrun | ]);
        by rewrite <- ?app_assoc.
    + unfold warn. destruct (verbose && Dict.mem _ os); simpl; by rewrite Hfilter.
    + intros ->. simpl. by rewrite Hquiet.
    + apply Forall_app. split; [unfold warn; case_if; by repeat constructor | ].
      by constructor.
Qed.

(** X6: [add_robot] never fails.  It binds the robot's name in [robots]
    and runs [add_object] on each of the robot's links in the order of
    [robot.objects], so that afterwards the name of every link is a key of
    [objects]; apart from printed warnings its calls are one [set_object]
    write per link, in that order (and exactly those when [verbose] is
    false), none of them on a frame handle.  The camera, the clip and the
    frame counter are untouched. *)
Theorem add_robot_registers_links w robot verbose :
  let r := robs (store w) robot in
  let links := Dict.values (r_objects r) in
  ∃ w' new,
    add_robot robot verbose w = (Ok tt, w')
    ∧ robots (scene w') = Dict.set (r_name r) robot (robots (scene w))
    ∧ objects (scene w') = register_all (store w) links (objects (scene w))
    ∧ (∀ obj, obj ∈ links → o_name (objs (store w) obj) ∈ Dict.keys (objects (scene w')))
    ∧ calls w' = calls w ++ new
    ∧ List.filter (λ c, negb (is_print c)) new = map (set_object_call (store w)) links
    ∧ (verbose = false → new = map (set_object_call (store w)) links)
    ∧ Forall (λ c, is_frame_call c = false) new
    ∧ store w' = store w
    ∧ camera_and_animation w' = camera_and_animation w.
Proof.
  destruct w as [[os rs cp cz an fc] st cs]. simpl.
  set (r := robs st robot). set (links := Dict.values (r_objects r)).
  set (warn := if verbose && Dict.mem (r_name r) rs
               then [EPrint "Robot with the same name is already inside the scene, it will be replaced. "]
               else []).
  destruct (for_each_add_object verbose links
              {| objects := os; robots := Dict.set (r_name r) robot rs;
                 camera_pose := cp; camera_zoom := cz; _animation := an;
                 _animation_frame_counter := fc |} st (cs ++ warn))
    as (new & Hrun & Hfilter & Hquiet & Hlive).
  eexists {| scene := _; store := st; calls := (cs ++ warn) ++ new |}.
  exists (warn ++ new). split.
  - unfold add_robot. simpl. fold r. fold links. unfold warn in *.
    destruct (verbose && Dict.mem (r_name r) rs); simpl in *;
      rewrite ?app_nil_r in *; exact Hrun.
  - simpl. split; [done | ]. split; [done | ].
    split; [intros obj Hobj; by apply register_all_links | ].
    split; [by rewrite app_assoc | ].
    split; [unfold warn; case_if; simpl; by rewrite Hfilter | ].
    split; [intros ->; simpl; by apply Hquiet | ].
    split; [ | done].
    apply Forall_app. split; [unfold warn; case_if; by repeat constructor | done].
Qed.

(** X7: while a capture is active, [remove_robot] with [verbose=True]
    returns normally, changes nothing in the scene or the store and only
    prints its warning: neither the robot nor any of its links is removed. *)
Theorem remove_robot_refused w robot :
  _animation (scene w) ≠ None →
  remove_robot robot true w
  = (Ok tt, {| scene := scene w; store := store w;
               calls := calls w
                        ++ [EPrint "Removing robots while animating is not allowed."] |}).
Proof.
  destruct w as [[os rs cp cz an fc] st cs]. simpl. intros Ha.
  by destruct an as [a|].
Qed.

(** X8: when the guard of [remove_robot] does not fire and the robot's name
    is not a key of [robots], the call raises [KeyError] with that name and
    changes nothing: its links stay registered and no delete is issued. *)
Theorem remove_robot_missing_key w robot verbose :
  let nm := r_name (robs (store w) robot) in
  _animation (scene w) = None ∨ verbose = false →
  nm ∉ Dict.keys (robots (scene w)) →
  remove_robot robot verbose w = (Raise (KeyError nm), w).
Proof.
  destruct w as [[os rs cp cz an fc] st cs]. simpl. intros Hguard Hnin.
  unfold remove_robot. simpl.
  replace (verbose && bool_decide (an ≠ None)) with false.
  - simpl. by rewrite (dict_pop_absent _ _ Hnin).
  - destruct Hguard as [-> | ->]; [by rewrite andb_false_r | done].
Qed.

(** X9: [remove_robot] is not atomic.  When the robot is registered but its
    first link is not (it was removed on its own, say), the call raises the
    [KeyError] of that link after it has already dropped the robot from
    [robots]; no delete has been issued. *)
Theorem remove_robot_partial w robot verbose k obj links :
  let r := robs (store w) robot in
  let nm := o_name (objs (store w) obj) in
  _animation (scene w) = None ∨ verbose = false →
  r_name r ∈ Dict.keys (robots (scene w)) →
  r_objects r = (k, obj) :: links →
  nm ∉ Dict.keys (objects (scene w)) →
  ∃ v d,
    Dict.pop (r_name r) (robots (scene w)) = Some (v, d)
    ∧ length (robots (scene w)) = S (length d)
    ∧ remove_robot robot verbose w
      = (Raise (KeyError nm),
         {| scene := set_robots d (scene w); store := store w; calls := calls w |}).
Proof.
  destruct w as [[os rs cp cz an fc] st cs]. simpl. intros Hguard Hin Hlinks Hnin.
  destruct (dict_pop_present _ _ Hin) as (v & d & Hpop & _ & Hlen & _).
  exists v, d. split; [done | ]. split; [done | ].
  assert (verbose && bool_decide (an ≠ None) = false) as Hoff.
  { destruct Hguard as [-> | ->]; [by rewrite andb_false_r | done]. }
  unfold remove_robot. simpl. rewrite Hoff. simpl. rewrite Hpop, Hlinks. simpl.
  unfold remove_object. simpl. rewrite Hoff. simpl.
  by rewrite (dict_pop_absent _ _ Hnin).
Qed.
Lemma for_each_add_fresh verbose l s st cs :
  NoDup (map (λ obj, o_name (objs st obj)) l) →
  (∀ obj, obj ∈ l → o_name (objs st obj) ∉ Dict.keys (objects s)) →
  for_each l (λ obj, add_object obj verbose) {| scene := s; store := st; calls := cs |}
  = (Ok tt,
     {| scene := set_objects (objects s ++ map (λ obj, (o_name (objs st obj), obj)) l) s;
        store := st; calls := cs ++ map (set_object_call st) l |}).
Proof.
  revert s cs. induction l as [|obj l IH]; intros s cs Hnd Hfresh; simpl.
  - rewrite !app_nil_r. by destruct s.
  - apply NoDup_cons in Hnd as [Hobj Hnd].
    rewrite add_object_fresh_eq by (apply Hfresh; by left). simpl.
    rewrite IH; [ | done | ].
    + destruct s. simpl. by rewrite <- !app_assoc.
    + intros x Hx. destruct s as [os rs cp cz an fc]. simpl.
      unfold Dict.keys. rewrite map_app. simpl.
      intros Hin. apply elem_of_app in Hin as [Hin | Hin].
      * by apply (Hfresh x (list_elem_of_further _ _ _ Hx)).
      * apply list_elem_of_singleton in Hin. apply Hobj. rewrite <- Hin.
        apply list_elem_of_In, in_map_iff. exists x.
        split; [done | by apply list_elem_of_In].
Qed.

Lemma for_each_remove_fresh verbose l s st cs d :
  _animation s = None ∨ verbose = false →
  NoDup (map (λ obj, o_name (objs st obj)) l) →
  (∀ obj, obj ∈ l → o_name (objs st obj) ∉ Dict.keys d) →
  objects s = d ++ map (λ obj, (o_name (objs st obj), obj)) l →
  for_each l (λ obj, remove_object obj verbose) {| scene := s; store := st; calls := cs |}
  = (Ok tt,
     {| scene := set_objects d s; store := st;
        calls := cs ++ map (λ obj, EDelete (o_name (objs st obj))) l |}).
Proof.
  intros Hguard. revert s cs Hguard.
  induction l as [|obj l IH]; intros s cs Hguard Hnd Hfresh Hobjs; simpl.
  - rewrite !app_nil_r in *. destruct s. simpl in *. by subst.
  - apply NoDup_cons in Hnd as [Hobj Hnd].
    destruct s as [os rs cp cz an fc]. simpl in Hobjs, Hguard. subst os.
    unfold remove_object at 1. simpl.
    replace (verbose && bool_decide (an ≠ None)) with false
      by (destruct Hguard as [-> | ->]; [by rewrite andb_false_r | done]).
    simpl. rewrite dict_pop_app_fresh by (apply Hfresh; by left). simpl.
    erewrite IH; [ | exact Hguard | exact Hnd | | reflexivity].
    + simpl. by rewrite <- !app_assoc.
    + intros x Hx. apply Hfresh. by right.
Qed.

(** X10: adding a robot and removing it again gives back the scene as it
    was, provided the guard of [remove_robot] does not fire, the robot's name
    is new, and the names of its links are distinct and new.  The calls made
    are one [set_object] write per link, then one delete per link, each in
    the order of [robot.objects]. *)
Theorem add_remove_robot_round_trip w robot verbose :
  let r := robs (store w) robot in
  let links := Dict.values (r_objects r) in
  _animation (scene w) = None ∨ verbose = false →
  r_name r ∉ Dict.keys (robots (scene w)) →
  NoDup (map (λ obj, o_name (objs (store w) obj)) links) →
  (∀ obj, obj ∈ links → o_name (objs (store w) obj) ∉ Dict.keys (objects (scene w))) →
  (add_robot robot verbose ;;; remove_robot robot verbose)%py w
  = (Ok tt,
     {| scene := scene w; store := store w;
        calls := calls w
                 ++ map (set_object_call (store w)) links
                 ++ map (λ obj, EDelete (o_name (objs (store w) obj))) links |}).
Proof.
  destruct w as [[os rs cp cz an fc] st cs]. simpl.
  set (r := robs st robot). set (links := Dict.values (r_objects r)).
  intros Hguard Hrobot Hnd Hfresh.
  assert (verbose && bool_decide (an ≠ None) = false) as Hoff.
  { destruct Hguard as [-> | ->]; [by rewrite andb_false_r | done]. }
  assert (Dict.mem (r_name r) rs = false) as Hmem.
  { destruct (Dict.mem _ rs) eqn:Hm; [ | done]. by apply dict_mem_keys in Hm. }
  unfold add_robot. simpl. fold r. fold links.
  rewrite Hmem, andb_false_r. simpl.
  rewrite for_each_add_fresh by done. simpl.
  unfold remove_robot. simpl. fold r. fold links. rewrite Hoff. simpl.
  rewrite (dict_set_absent _ _ _ Hrobot).
  rewrite (dict_pop_app_fresh _ _ _ [] Hrobot). simpl.
  rewrite (for_each_remove_fresh verbose links _ st _ os); try done.
  simpl. by rewrite app_nil_r, <- app_assoc.
Qed.
(** ** More on [render] *)

Lemma reachable_consistent w : reachable w → animation_consistent (scene w).
Proof.
  induction 1 as [open wait st | w o _ IH]; [done | by apply run_op_consistent].
Qed.

(** X11: in every reachable state [render] returns normally, and it changes
    neither [objects] nor [robots]; the store becomes the one the robots'
    [fk()] calls leave. *)
Theorem render_never_raises w :
  reachable w →
  ∃ w', render w = (Ok tt, w')
        ∧ objects (scene w') = objects (scene w)
        ∧ robots (scene w') = robots (scene w)
        ∧ camera_pose (scene w') = camera_pose (scene w)
        ∧ camera_zoom (scene w') = camera_zoom (scene w)
        ∧ store w' = fk_all (Dict.values (robots (scene w))) (store w).
Proof.
  intros Hw. apply reachable_consistent in Hw as Hc.
  destruct (_animation (scene w)) as [a|] eqn:Ha.
  - destruct (_animation_frame_counter (scene w)) as [n|] eqn:Hn.
    + rewrite (render_capture w a n Ha Hn). by eexists.
    + destruct Hc as [_ Hc]. specialize (Hc Hn). congruence.
  - rewrite (render_live w Ha). by eexists.
Qed.

Lemma object_calls_ext t st st' d :
  (∀ k obj, (k, obj) ∈ d → objs st' obj = objs st obj) →
  object_calls t st' d = object_calls t st d.
Proof.
  induction d as [|[k obj] d IH]; intros Hext; simpl; [done | ].
  rewrite (Hext k obj) by left. f_equal. apply IH.
  intros k' obj' Hin. apply (Hext k'). by right.
Qed.

(** X12: with no capture active, a second [render] right after a first one
    leaves the scene as it was and, when running the kinematics again does
    not change the registered objects any further, repeats the very same
    batch of calls. *)
Theorem render_twice_same_batch w :
  let rs := Dict.values (robots (scene w)) in
  _animation (scene w) = None →
  (∀ k obj, (k, obj) ∈ objects (scene w) →
            objs (fk_all rs (fk_all rs (store w))) obj = objs (fk_all rs (store w)) obj) →
  ∃ w2,
    (render ;;; render)%py w = (Ok tt, w2)
    ∧ scene w2 = scene w
    ∧ calls w2 = calls w ++ code_render_calls w ++ code_render_calls w.
Proof.
  intros rs Ha Hfk. unfold bind. rewrite (render_live w Ha).
  rewrite render_live by done. simpl. eexists. split; [reflexivity | ]. simpl.
  split; [done | ]. rewrite <- app_assoc. do 2 f_equal.
  unfold code_render_calls. simpl. by rewrite (object_calls_ext _ _ _ _ Hfk).
Qed.

(** X13: during a capture one [render] makes no call on the visualizer at
    all: besides the [fk()] calls, everything goes to the frame handle.  The
    clip keeps the entries it had and gains two for the camera and one per
    object, all tagged with the current frame index, and the counter moves
    on by one. *)
Theorem render_capture_only_frame w a n :
  _animation (scene w) = Some a →
  _animation_frame_counter (scene w) = Some n →
  ∃ w' new a' added,
    render w = (Ok tt, w')
    ∧ calls w' = calls w ++ new
    ∧ Forall (λ c, is_visualizer_call c = false) new
    ∧ _animation (scene w') = Some a'
    ∧ writes a' = writes a ++ added
    ∧ Forall (λ x, x.1.1 = n) added
    ∧ length added = 2 + length (objects (scene w))
    ∧ default_framerate a' = default_framerate a
    ∧ _animation_frame_counter (scene w') = Some (S n).
Proof.
  intros Ha Hn. rewrite (render_capture w a n Ha Hn). simpl.
  do 4 eexists. split; [reflexivity | ]. simpl.
  split; [reflexivity | ]. split.
  - unfold code_render_calls, render_target, camera_calls, object_calls.
    rewrite Ha, Hn. repeat constructor.
    apply Forall_app. split; apply Forall_forall; intros c Hc;
      apply list_elem_of_In, in_map_iff in Hc as (x & <- & _); [done | by destruct x].
  - split; [reflexivity | ]. simpl. split; [reflexivity | ]. split.
    + repeat constructor. unfold object_writes. apply Forall_forall. intros x Hx.
      apply list_elem_of_In, in_map_iff in Hx as ([k obj] & <- & _). done.
    + split; [ | done]. simpl. unfold object_writes. by rewrite length_map.
Qed.

(** X14: assigning to [camera_pos] makes no call on any collaborator; the
    new position reaches the viewer with the next [render], whose first call
    is the camera transform carrying it. *)
Theorem camera_pos_shown_by_next_render w p :
  is_shape 4 4 (camera_pose (scene w)) →
  length p = 3 →
  animation_consistent (scene w) →
  ∃ w1 w2 m,
    camera_pos_setter p w = (Ok tt, w1)
    ∧ calls w1 = calls w
    ∧ render w1 = (Ok tt, w2)
    ∧ calls w2 !! length (calls w)
      = Some (ESetTransform (render_target (scene w)) "/Cameras/default" m)
    ∧ get_col3 m = Ok p
    ∧ get_block33 m = camera_rot (scene w).
Proof.
  intros Hm Hp Hc.
  destruct (camera_pos_setter p w) as [r w1] eqn:Hset.
  assert (r = Ok tt ∧ calls w1 = calls w ∧ store w1 = store w
          ∧ camera_and_animation w1
            = (camera_pose (scene w1), camera_zoom (scene w),
               _animation (scene w), _animation_frame_counter (scene w))
          ∧ get_col3 (camera_pose (scene w1)) = Ok p
          ∧ get_block33 (camera_pose (scene w1)) = camera_rot (scene w))
    as (-> & Hcalls & Hstore & Hrest & Hpos & Hrot).
  { destruct w as [[os rs cp cz an fc] st cs]. simpl in *.
    explode_shape Hm. explode_list p Hp.
    injection Hset as <- <-. done. }
  injection Hrest as Hz Ha Hn.
  assert (animation_consistent (scene w1)) as Hc1.
  { unfold animation_consistent. by rewrite Ha, Hn. }
  destruct (render_ok w1 Hc1) as (w2 & Hr & Hcalls2 & _).
  exists w1, w2, (camera_pose (scene w1)).
  split; [done | ]. split; [done | ]. split; [done | ].
  split; [ | done].
  rewrite Hcalls2, Hcalls. rewrite lookup_app_r by done.
  rewrite Nat.sub_diag. unfold code_render_calls, render_target. simpl.
  by rewrite Ha, Hn.
Qed.
(** ** Captures that overlap *)

Lemma capture_renders_registry k w a n :
  _animation (scene w) = Some a →
  _animation_frame_counter (scene w) = Some n →
  objects (scene (repeat_m k render w).2) = objects (scene w).
Proof.
  revert w a n. induction k as [|k IH]; intros w a n Ha Hn; simpl; [done | ].
  rewrite (render_capture w a n Ha Hn). simpl.
  by erewrite IH by (simpl; reflexivity).
Qed.

Lemma published_app cs1 cs2 : published (cs1 ++ cs2) = published cs1 ++ published cs2.
Proof. apply omap_app. Qed.

Lemma published_render w : published (code_render_calls w) = [].
Proof.
  unfold code_render_calls, published. rewrite !omap_app. simpl.
  assert (∀ rs, omap (λ c, match c with
                           | ESetAnimation path a => Some (path, a)
                           | _ => None
                           end) (map EFk rs) = []) as -> by (by induction rs).
  unfold object_calls. by induction (objects (scene w)) as [|[k obj] d IH].
Qed.

Lemma capture_renders_published k w a n :
  _animation (scene w) = Some a →
  _animation_frame_counter (scene w) = Some n →
  ∃ new, calls (repeat_m k render w).2 = calls w ++ new ∧ published new = [].
Proof.
  revert w a n. induction k as [|k IH]; intros w a n Ha Hn; simpl.
  - exists []. by rewrite app_nil_r.
  - rewrite (render_capture w a n Ha Hn). simpl.
    edestruct IH as (new & -> & Hnew); [simpl; reflexivity | simpl; reflexivity | ].
    simpl. exists (code_render_calls w ++ new). split; [by rewrite app_assoc | ].
    by rewrite published_app, Hnew, app_nil_r, published_render.
Qed.

(** X16: captures do not nest.  Entering a second [AnimationContext] while
    a first one is active discards the frames recorded so far and restarts
    the counter: the inner exit publishes a clip holding only the inner
    frames, numbered from 0, and clears the capture.  The outer exit then
    finds no clip: [set_animation(None)] raises [AttributeError], which is
    the outcome of the outer [with], and the outer frames are never
    published. *)
Theorem nested_capture_clobbers ctx1 ctx2 n m w :
  ∃ a w',
    with_ ctx1 (repeat_m n render ;;; with_ ctx2 (repeat_m m render))%py w
    = (Raise AttributeError, w')
    ∧ published (drop (length (calls w)) (calls w'))
      = [("animations/" +:+ name ctx2, Some a)]
    ∧ default_framerate a = fps ctx2
    ∧ frame_indices a
      = flat_map (λ i, replicate (2 + length (objects (scene w))) i) (seq 0 m)
    ∧ _animation (scene w') = None
    ∧ _animation_frame_counter (scene w') = None.
Proof.
  destruct w as [[os rs cp cz an fc] st cs].
  set (w0 := {| scene := {| objects := os; robots := rs; camera_pose := cp;
                            camera_zoom := cz;
                            _animation := Some {| default_framerate := fps ctx1;
                                                  writes := [] |};
                            _animation_frame_counter := Some 0 |};
                store := st; calls := cs |}).
  destruct (capture_renders n w0 _ 0 eq_refl eq_refl) as (wn & an' & Hn & _).
  pose proof (capture_renders_registry n w0 _ 0 eq_refl eq_refl) as Hobjs.
  destruct (capture_renders_published n w0 _ 0 eq_refl eq_refl) as (new1 & Hcs1 & Hp1).
  rewrite Hn in Hobjs, Hcs1. simpl in Hobjs, Hcs1.
  destruct wn as [[os' rs' cp' cz' an'' fc'] st' cs']. simpl in Hobjs, Hcs1. subst os' cs'.
  set (w1 := {| scene := {| objects := os; robots := rs'; camera_pose := cp';
                            camera_zoom := cz';
                            _animation := Some {| default_framerate := fps ctx2;
                                                  writes := [] |};
                            _animation_frame_counter := Some 0 |};
                store := st'; calls := cs ++ new1 |}).
  destruct (capture_renders m w1 _ 0 eq_refl eq_refl)
    as (wm & a & Hm & Ha & _ & Hfps & Hidx).
  destruct (capture_renders_published m w1 _ 0 eq_refl eq_refl) as (new2 & Hcs2 & Hp2).
  rewrite Hm in Hcs2. simpl in Hcs2.
  destruct wm as [[osm rsm cpm czm anm fcm] stm csm]. simpl in Ha, Hcs2. subst anm csm.
  exists a. unfold with_ at 1.
  change (__enter__ ctx1 _) with (Ok ctx1, w0). cbv beta iota.
  unfold bind at 1. rewrite Hn. unfold with_.
  change (__enter__ ctx2 _) with (Ok ctx2, w1). cbv beta iota.
  rewrite Hm. simpl. eexists. split; [reflexivity | ]. simpl.
  split; [ | done].
  rewrite <- !app_assoc, drop_app_length.
  by rewrite !published_app, Hp1, Hp2.
Qed.
(** X17: on a 4 by 4 pose, what is assigned to [camera_pos] is broadcast by
    numpy's rule: a value of length one fills all three coordinates, and a
    value of any length other than one or three raises [ValueError] and
    leaves the scene as it was. *)
Theorem camera_pos_setter_broadcast w p :
  is_shape 4 4 (camera_pose (scene w)) →
  length p ≠ 3 →
  match p with
  | [x] => ∃ w1, camera_pos_setter p w = (Ok tt, w1)
                 ∧ camera_pos (scene w1) = Ok [x; x; x]
                 ∧ camera_rot (scene w1) = camera_rot (scene w)
  | _ => camera_pos_setter p w = (Raise ValueError, w)
  end.
Proof.
  destruct w as [[os rs cp cz an fc] st cs]. simpl. intros Hm Hp.
  explode_shape Hm. destruct p as [|p0 [|p1 p]].
  - reflexivity.
  - eexists. split; [reflexivity | by split].
  - unfold camera_pos_setter, set_col3, broadcast. simpl.
    destruct (decide (S (S (length p)) = 3)) as [Heq|_]; [by destruct Hp | done].
Qed.
End Proofs.

(** * The properties on the concrete scene *)

Import Demo.

(** C1: a capture is active in [w_capture], yet [remove_object] and
    [remove_robot] called with [verbose=False] are not refused: the box
    leaves [objects] and a delete is issued for it; the arm leaves [robots],
    its two links leave [objects] and a delete is issued for each. *)
Theorem remove_not_refused_when_quiet :
  _animation (scene w_capture) ≠ None
  ∧ objects (scene w_capture) = [("box", 0); ("arm/link0", 2); ("arm/link1", 3)]
  ∧ robots (scene w_capture) = [("arm", 0)]
  ∧ (∃ w', remove_object 0 false w_capture = (Ok tt, w')
           ∧ objects (scene w') = [("arm/link0", 2); ("arm/link1", 3)]
           ∧ calls w' = calls w_capture ++ [EDelete "box"])
  ∧ (∃ w', remove_robot 0 false w_capture = (Ok tt, w')
           ∧ robots (scene w') = []
           ∧ objects (scene w') = [("box", 0)]
           ∧ calls w' = calls w_capture ++ [EDelete "arm/link0"; EDelete "arm/link1"]).
Proof.
  split; [done | ]. split; [reflexivity | ]. split; [reflexivity | ].
  split; eexists; (split; [lazy; reflexivity | ]); by vm_compute.
Qed.

(** C2, as the specification words it, fails on the live demo scene: the
    calls of [render] are not kinematics, objects, camera in that order.  The
    first call of the tick is the camera pose and the last one is the
    transform of an object. *)
Lemma render_order_of_spec_fails :
  ∃ w', render w_live = (Ok tt, w')
        ∧ calls w' ≠ calls w_live ++ spec_render_calls w_live
        ∧ calls w' !! length (calls w_live)
          = Some (ESetTransform Live "/Cameras/default" (eye 4))
        ∧ last (calls w') = Some (ESetTransform Live "arm/link1" (translation 7)).
Proof.
  eexists. split; [lazy; reflexivity | ]. split; [ | by vm_compute].
  vm_compute. discriminate.
Qed.

Lemma render_calls_in_order_witness :
  animation_consistent (scene w_capture)
  ∧ ∃ w', render w_capture = (Ok tt, w')
          ∧ calls w'
            = calls w_capture
              ++ [ESetTransform (Frame 0) "/Cameras/default" (eye 4);
                  ESetProperty (Frame 0) "/Cameras/default/rotated/<object>" "zoom"
                    (Some "number") (VNum 1%Z);
                  EFk 0;
                  ESetTransform (Frame 0) "box" (translation 0);
                  ESetTransform (Frame 0) "arm/link0" (translation 7);
                  ESetTransform (Frame 0) "arm/link1" (translation 7)].
Proof.
  assert (animation_consistent (scene w_capture)) as Hc by (by split).
  split; [exact Hc | ].
  destruct (render_calls_in_order w_capture Hc) as (w' & Hr & Hcalls).
  exists w'. split; [exact Hr | ]. rewrite Hcalls. reflexivity.
Defined.

Lemma zoom_write_by_mode_witness :
  animation_consistent (scene w_capture)
  ∧ ∃ w', render w_capture = (Ok tt, w')
          ∧ zoom_calls (drop (length (calls w_capture)) (calls w'))
            = [(Frame 0, Some "number", VNum 1%Z)].
Proof.
  assert (animation_consistent (scene w_capture)) as Hc by (by split).
  split; [exact Hc | ].
  destruct (zoom_write_by_mode w_capture Hc) as (w' & Hr & n & Hn & Hz).
  exists w'. split; [exact Hr | ].
  rewrite Hz. injection Hn as <-. reflexivity.
Defined.

Lemma add_object_replaces_witness :
  "box" ∈ Dict.keys (objects (scene w_live))
  ∧ ∃ w', add_object 1 true w_live = (Ok tt, w')
          ∧ Dict.get "box" (objects (scene w')) = Some 1
          ∧ Dict.keys (objects (scene w')) = ["box"; "arm/link0"; "arm/link1"].
Proof.
  assert ("box" ∈ Dict.keys (objects (scene w_live))) as Hin by (by left).
  split; [exact Hin | ].
  destruct (add_object_replaces w_live 1 true Hin) as (w' & Hr & Hget & Hkeys & _).
  exists w'. split; [exact Hr | ]. split; [exact Hget | ].
  rewrite Hkeys. reflexivity.
Defined.

Lemma remove_object_refused_then_allowed_witness :
  _animation (scene w_capture) ≠ None
  ∧ remove_object 0 true w_capture
    = (Ok tt, {| scene := scene w_capture; store := store w_capture;
                 calls := calls w_capture
                          ++ [EPrint "Removing object while animating is not allowed."] |})
  ∧ ∃ w', (remove_object 0 true ;;; __exit__ (animation 30) None ;;;
           remove_object 0 true)%py w_capture = (Ok tt, w')
          ∧ objects (scene w') = [("arm/link0", 2); ("arm/link1", 3)].
Proof.
  assert (_animation (scene w_capture) ≠ None) as Ha by done.
  destruct (remove_object_refused_then_allowed w_capture 0 (animation 30) None Ha)
    as [Hrefused Hlater].
  split; [exact Ha | ]. split; [exact Hrefused | ].
  destruct Hlater as (v & d & w' & Hpop & Hrun & Hobjs & _); [by left | ].
  exists w'. split; [exact Hrun | ]. rewrite Hobjs.
  vm_compute in Hpop. by injection Hpop as _ <-.
Defined.

Lemma remove_object_missing_key_witness :
  (_animation (scene w_capture) = None ∨ false = false)
  ∧ ("ball" ∉ Dict.keys (objects (scene w_capture)))
  ∧ remove_object 4 false w_capture = (Raise (KeyError "ball"), w_capture).
Proof.
  assert ("ball" ∉ Dict.keys (objects (scene w_capture))) as Hnin.
  { apply (bool_decide_unpack _). by vm_compute. }
  split; [by right | ]. split; [exact Hnin | ].
  exact (proj1 (remove_object_missing_key w_capture 4 false (or_intror eq_refl) Hnin)).
Defined.

Lemma camera_pos_rot_independent_witness :
  is_shape 4 4 (camera_pose (scene w_live))
  ∧ (∃ w1, camera_pos_setter [1; 2; 3]%Z w_live = (Ok tt, w1)
           ∧ camera_pos (scene w1) = Ok [1; 2; 3]%Z
           ∧ camera_rot (scene w1) = camera_rot (scene w_live))
  ∧ (∃ w2, camera_rot_setter [[0; -1; 0]; [1; 0; 0]; [0; 0; 1]]%Z w_live = (Ok tt, w2)
           ∧ camera_rot (scene w2) = Ok [[0; -1; 0]; [1; 0; 0]; [0; 0; 1]]%Z
           ∧ camera_pos (scene w2) = camera_pos (scene w_live)).
Proof.
  assert (is_shape 4 4 (camera_pose (scene w_live))) as Hm.
  { split; [reflexivity | repeat constructor]. }
  split; [exact Hm | ].
  apply (camera_pos_rot_independent w_live _ _ Hm); [reflexivity | ].
  split; [reflexivity | repeat constructor].
Defined.

Lemma animation_attributes_paired_witness :
  reachable (run_op (op_enter (animation 30)) (Scene_init true true st0)).2
  ∧ ∃ a n,
      _animation (scene (run_op (op_enter (animation 30)) (Scene_init true true st0)).2)
      = Some a
      ∧ _animation_frame_counter
          (scene (run_op (op_enter (animation 30)) (Scene_init true true st0)).2)
        = Some n.
Proof.
  assert (reachable (run_op (op_enter (animation 30)) (Scene_init true true st0)).2)
    as Hr by apply reachable_step, reachable_init.
  split; [exact Hr | ].
  destruct (animation_attributes_paired _ Hr) as [Hboth | [Hnone _]].
  - exact Hboth.
  - discriminate Hnone.
Defined.

(** The capture of C3 on the demo scene: three frames of five writes each. *)
Lemma capture_then_live_witness :
  ∃ a w1,
    with_ (animation 30) (repeat_m 3 render) w_live = (Ok tt, w1)
    ∧ last (calls w1) = Some (ESetAnimation "animations/a" (Some a))
    ∧ frame_indices a = [0; 0; 0; 0; 0; 1; 1; 1; 1; 1; 2; 2; 2; 2; 2].
Proof.
  destruct (capture_then_live (animation 30) 3 w_live)
    as (a & w1 & Hw & Hlast & _ & Hidx & _).
  exists a, w1. split; [exact Hw | ]. split; [exact Hlast | ]. rewrite Hidx. reflexivity.
Defined.

Lemma with_always_publishes_and_clears_witness :
  failing_block (__enter__ (animation 30) w_live).2
  = (Raise (UserError "stop"), (failing_block w_capture).2)
  ∧ _animation (scene (failing_block w_capture).2) ≠ None
  ∧ ∃ w2, with_ (animation 30) failing_block w_live = (Raise (UserError "stop"), w2)
          ∧ last (calls w2)
            = Some (ESetAnimation "animations/a"
                      (_animation (scene (failing_block w_capture).2)))
          ∧ _animation (scene w2) = None
          ∧ _animation_frame_counter (scene w2) = None.
Proof.
  assert (failing_block (__enter__ (animation 30) w_live).2
          = (Raise (UserError "stop"), (failing_block w_capture).2)) as Hbody
    by (vm_compute; reflexivity).
  assert (_animation (scene (failing_block w_capture).2) ≠ None) as Ha
    by (vm_compute; discriminate).
  split; [exact Hbody | ]. split; [exact Ha | ].
  destruct (with_always_publishes_and_clears (animation 30) failing_block w_live
              _ _ Hbody Ha) as (w2 & Hrun & _ & Hcalls & Hclip & Hcounter & _).
  exists w2. split; [exact Hrun | ]. split; [ | by split].
  rewrite Hcalls. apply last_snoc.
Defined.

(** The exit of C4 when the body raises: the error comes out of the [with]
    statement and the capture is closed all the same. *)
Example with_raising_body_demo :
  ∃ w2,
    with_ (animation 30) (render ;;; raise (UserError "stop"))%py w_live
    = (Raise (UserError "stop"), w2)
    ∧ _animation (scene w2) = None
    ∧ _animation_frame_counter (scene w2) = None
    ∧ ∃ a, last (calls w2) = Some (ESetAnimation "animations/a" (Some a))
           ∧ frame_indices a = [0; 0; 0; 0; 0].
Proof.
  eexists. split; [lazy; reflexivity | ]. split; [reflexivity | ]. split; [reflexivity | ].
  eexists. split; [lazy; reflexivity | reflexivity].
Qed.

(** ** The further properties on the concrete scene *)

Lemma add_object_fresh_witness :
  ("ball" ∉ Dict.keys (objects (scene w_live)))
  ∧ add_object 4 true w_live
    = (Ok tt,
       {| scene := set_objects [("box", 0); ("arm/link0", 2); ("arm/link1", 3); ("ball", 4)]
                     (scene w_live);
          store := store w_live;
          calls := calls w_live ++ [ESetObject "ball" "sphere" "green"] |}).
Proof.
  assert ("ball" ∉ Dict.keys (objects (scene w_live))) as Hnin.
  { apply (bool_decide_unpack _). by vm_compute. }
  split; [exact Hnin | ]. exact (add_object_fresh w_live 4 true Hnin).
Defined.

Lemma object_calls_keep_other_bindings_witness :
  "arm/link0" ≠ "box"
  ∧ Dict.get "arm/link0" (objects (scene (add_object 1 true w_live).2)) = Some 2
  ∧ Dict.get "arm/link0" (objects (scene (remove_object 0 true w_live).2)) = Some 2.
Proof.
  assert ("arm/link0" ≠ "box") as Hne by done.
  split; [exact Hne | ].
  destruct (object_calls_keep_other_bindings w_live 0 true "arm/link0" Hne) as [_ Hrem].
  destruct (object_calls_keep_other_bindings w_live 1 true "arm/link0" Hne) as [Hadd _].
  split; [rewrite Hadd | rewrite Hrem]; reflexivity.
Defined.

Lemma remove_object_registered_witness :
  (_animation (scene w_capture) = None ∨ false = false)
  ∧ ("box" ∈ Dict.keys (objects (scene w_capture)))
  ∧ remove_object 0 false w_capture
    = (Ok tt, {| scene := set_objects [("arm/link0", 2); ("arm/link1", 3)] (scene w_capture);
                 store := store w_capture;
                 calls := calls w_capture ++ [EDelete "box"] |}).
Proof.
  assert ("box" ∈ Dict.keys (objects (scene w_capture))) as Hin by (by left).
  split; [by right | ]. split; [exact Hin | ].
  destruct (remove_object_registered w_capture 0 false (or_intror eq_refl) Hin)
    as (v & d & Hpop & _ & Hrun & _).
  rewrite Hrun. vm_compute in Hpop. by injection Hpop as _ <-.
Defined.

Lemma add_remove_object_round_trip_witness :
  (_animation (scene w_live) = None ∨ true = false)
  ∧ ("ball" ∉ Dict.keys (objects (scene w_live)))
  ∧ (add_object 4 true ;;; remove_object 4 true)%py w_live
    = (Ok tt, {| scene := scene w_live; store := store w_live;
                 calls := calls w_live
                          ++ [ESetObject "ball" "sphere" "green"; EDelete "ball"] |}).
Proof.
  assert ("ball" ∉ Dict.keys (objects (scene w_live))) as Hnin.
  { apply (bool_decide_unpack _). by vm_compute. }
  split; [by left | ]. split; [exact Hnin | ].
  exact (add_remove_object_round_trip w_live 4 true (or_introl eq_refl) Hnin).
Defined.

Lemma remove_robot_refused_witness :
  _animation (scene w_capture) ≠ None
  ∧ remove_robot 0 true w_capture
    = (Ok tt, {| scene := scene w_capture; store := store w_capture;
                 calls := calls w_capture
                          ++ [EPrint "Removing robots while animating is not allowed."] |}).
Proof.
  assert (_animation (scene w_capture) ≠ None) as Ha by done.
  split; [exact Ha | ]. exact (remove_robot_refused w_capture 0 Ha).
Defined.

Lemma remove_robot_missing_key_witness :
  (_animation (scene w0) = None ∨ true = false)
  ∧ ("arm" ∉ Dict.keys (robots (scene w0)))
  ∧ remove_robot 0 true w0 = (Raise (KeyError "arm"), w0).
Proof.
  assert ("arm" ∉ Dict.keys (robots (scene w0))) as Hnin by apply not_elem_of_nil.
  split; [by left | ]. split; [exact Hnin | ].
  exact (remove_robot_missing_key w0 0 true (or_introl eq_refl) Hnin).
Defined.

Lemma remove_robot_partial_witness :
  ("arm" ∈ Dict.keys (robots (scene (remove_object 2 true w_live).2)))
  ∧ ("arm/link0" ∉ Dict.keys (objects (scene (remove_object 2 true w_live).2)))
  ∧ ∃ w', remove_robot 0 true (remove_object 2 true w_live).2
          = (Raise (KeyError "arm/link0"), w')
          ∧ robots (scene w') = []
          ∧ objects (scene w') = [("box", 0); ("arm/link1", 3)].
Proof.
  assert ("arm" ∈ Dict.keys (robots (scene (remove_object 2 true w_live).2)))
    as Hin by (by left).
  assert ("arm/link0" ∉ Dict.keys (objects (scene (remove_object 2 true w_live).2)))
    as Hnin.
  { apply (bool_decide_unpack _). by vm_compute. }
  split; [exact Hin | ]. split; [exact Hnin | ].
  destruct (remove_robot_partial (remove_object 2 true w_live).2 0 true
              "link0" 2 [("link1", 3)] (or_introl eq_refl) Hin eq_refl Hnin)
    as (v & d & Hpop & _ & Hrun).
  eexists. split; [exact Hrun | ].
  vm_compute in Hpop. injection Hpop as _ <-. by split.
Defined.

Lemma add_remove_robot_round_trip_witness :
  ("arm" ∉ Dict.keys (robots (scene w0)))
  ∧ (add_robot 0 true ;;; remove_robot 0 true)%py w0
    = (Ok tt, {| scene := scene w0; store := store w0;
                 calls := calls w0
                          ++ [ESetObject "arm/link0" "mesh0" "grey";
                              ESetObject "arm/link1" "mesh1" "grey";
                              EDelete "arm/link0"; EDelete "arm/link1"] |}).
Proof.
  assert ("arm" ∉ Dict.keys (robots (scene w0))) as Hnin by apply not_elem_of_nil.
  split; [exact Hnin | ].
  apply (add_remove_robot_round_trip w0 0 true (or_introl eq_refl) Hnin).
  - apply (bool_decide_unpack _). by vm_compute.
  - intros obj _. apply not_elem_of_nil.
Defined.

Lemma render_never_raises_witness :
  reachable (run_op (op_enter (animation 30)) (Scene_init true true st0)).2
  ∧ ∃ w', render (run_op (op_enter (animation 30)) (Scene_init true true st0)).2
          = (Ok tt, w').
Proof.
  assert (reachable (run_op (op_enter (animation 30)) (Scene_init true true st0)).2)
    as Hr by apply reachable_step, reachable_init.
  split; [exact Hr | ].
  destruct (render_never_raises _ Hr) as (w' & Hrun & _).
  exists w'. exact Hrun.
Defined.

Lemma render_twice_same_batch_witness :
  _animation (scene w_live) = None
  ∧ ∃ w2, (render ;;; render)%py w_live = (Ok tt, w2)
          ∧ scene w2 = scene w_live
          ∧ length (calls w2) = length (calls w_live) + 12.
Proof.
  split; [reflexivity | ].
  destruct (render_twice_same_batch w_live eq_refl) as (w2 & Hrun & Hscene & Hcalls).
  - intros k obj Hin.
    repeat (apply elem_of_cons in Hin as [Hin | Hin];
            [injection Hin as -> ->; reflexivity | ]).
    inversion Hin.
  - exists w2. split; [exact Hrun | ]. split; [exact Hscene | ].
    rewrite Hcalls. reflexivity.
Defined.

Lemma render_capture_only_frame_witness :
  _animation (scene w_capture) = Some {| default_framerate := 30; writes := [] |}
  ∧ _animation_frame_counter (scene w_capture) = Some 0
  ∧ ∃ w' a', render w_capture = (Ok tt, w')
             ∧ _animation (scene w') = Some a'
             ∧ length (writes a') = 5
             ∧ _animation_frame_counter (scene w') = Some 1.
Proof.
  split; [reflexivity | ]. split; [reflexivity | ].
  destruct (render_capture_only_frame w_capture _ 0 eq_refl eq_refl)
    as (w' & new & a' & added & Hrun & _ & _ & Ha & Hw & _ & Hlen & _ & Hn).
  exists w', a'. split; [exact Hrun | ]. split; [exact Ha | ].
  split; [ | exact Hn]. rewrite Hw, length_app, Hlen. reflexivity.
Defined.

Lemma camera_pos_shown_by_next_render_witness :
  is_shape 4 4 (camera_pose (scene w_live))
  ∧ animation_consistent (scene w_live)
  ∧ ∃ w1 w2 m,
      camera_pos_setter [1; 2; 3]%Z w_live = (Ok tt, w1)
      ∧ render w1 = (Ok tt, w2)
      ∧ calls w2 !! length (calls w_live)
        = Some (ESetTransform Live "/Cameras/default" m)
      ∧ get_col3 m = Ok [1; 2; 3]%Z.
Proof.
  assert (is_shape 4 4 (camera_pose (scene w_live))) as Hm.
  { split; [reflexivity | repeat constructor]. }
  assert (animation_consistent (scene w_live)) as Hc by (by split).
  split; [exact Hm | ]. split; [exact Hc | ].
  destruct (camera_pos_shown_by_next_render w_live [1; 2; 3]%Z Hm eq_refl Hc)
    as (w1 & w2 & m & Hset & _ & Hrun & Hcall & Hpos & _).
  exists w1, w2, m. split; [exact Hset | ]. split; [exact Hrun | ].
  split; [exact Hcall | exact Hpos].
Defined.

Lemma reachable_camera_pose_witness :
  reachable (run_op (op_camera_pos [4]%Z) (Scene_init true true st0)).2
  ∧ is_shape 4 4
      (camera_pose (scene (run_op (op_camera_pos [4]%Z) (Scene_init true true st0)).2)).
Proof.
  assert (reachable (run_op (op_camera_pos [4]%Z) (Scene_init true true st0)).2)
    as Hr by apply reachable_step, reachable_init.
  split; [exact Hr | ]. exact (reachable_camera_pose _ Hr).
Defined.

Lemma camera_pos_setter_broadcast_witness :
  is_shape 4 4 (camera_pose (scene w_live))
  ∧ (∃ w1, camera_pos_setter [5]%Z w_live = (Ok tt, w1)
           ∧ camera_pos (scene w1) = Ok [5; 5; 5]%Z)
  ∧ camera_pos_setter [1; 2]%Z w_live = (Raise ValueError, w_live).
Proof.
  assert (is_shape 4 4 (camera_pose (scene w_live))) as Hm.
  { split; [reflexivity | repeat constructor]. }
  split; [exact Hm | ]. split.
  - destruct (camera_pos_setter_broadcast w_live [5]%Z Hm) as (w1 & Hset & Hpos & _).
    + discriminate.
    + exists w1. by split.
  - apply (camera_pos_setter_broadcast w_live [1; 2]%Z Hm). discriminate.
Defined.
